(** * dbt-dry-run: the model runner and its schema-change handlers

    A shallow embedding of [dbt_dry_run/node_runner/model_runner.py]:
    the four [on_schema_change] handlers, the dispatch table, the
    substitution of upstream literals and [ModelRunner.run].

    Python values are embedded as follows.
    - [str] is [string]; [Optional[T]] is [option T]; [List[T]] is [list T].
    - [set] of [str] is [gset string].
    - [dict] is an insertion-ordered association list ([PyDict]): the
      handlers read the order of [dict.values()].
    - An f-string is kept as the sequence of its literal and interpolated
      parts ([Message]); how Python prints a list or a set is not part of
      the embedding.
    - A raised exception is the [Raised] branch of [Outcome].
    - The calls to the SQL runner are the nodes of a program tree
      ([SqlProg]) that is run against any implementation of [SqlRunner]. *)

From stdpp Require Import base option list strings gmap.

Set Warnings "-clear-no-such-hyp".

(** ** dbt_dry_run.models and dbt_dry_run.manifest *)

(** Modelled from the spec: the field of a table (name, type and nested
    fields); the class [TableField] of [dbt_dry_run.models] is not part of
    the sources at hand.  The handlers only read [name]. *)
#[warnings="-register-all"]
Inductive TableField : Type :=
  mkTableField { name : string; type_ : string; nested : list TableField }.

(** Modelled from the spec: a table is the ordered sequence of its fields. *)
Record Table : Type := mkTable { fields : list TableField }.

(** Modelled from the spec: the two outcomes of a dry run. *)
Inductive DryRunStatus : Type := SUCCESS | FAILURE.

#[global] Instance DryRunStatus_eq_dec : EqDecision DryRunStatus.
Proof. solve_decision. Defined.

(** The keys of [ON_SCHEMA_CHANGE_TABLE_HANDLER]. *)
Inductive OnSchemaChange : Type :=
  | IGNORE | APPEND_NEW_COLUMNS | SYNC_ALL_COLUMNS | FAIL.

(** [node.config]: the attributes [run] reads. *)
Record NodeConfig : Type := mkNodeConfig {
  materialized : string;
  on_schema_change : option OnSchemaChange }.

(** [node.depends_on]: [deep_nodes] is [None] until the dependency graph
    has been computed. *)
Record DependsOn : Type := mkDependsOn {
  deep_nodes : option (list string) }.

(** The attributes of a manifest [Node] that the runner reads. *)
Record Node : Type := mkNode {
  unique_id : string;
  database : string;
  db_schema : string;
  alias : string;
  compiled_sql : string;
  config : NodeConfig;
  depends_on : DependsOn }.

(** ** Messages and exceptions *)

(** One part of an f-string: literal text, or an interpolated value. *)
Inductive FormatPart : Type :=
  | Lit (text : string)
  | FmtStr (s : string)
  | FmtList (l : list string)
  | FmtSet (X : gset string).

Definition Message : Type := list FormatPart.

(** The exceptions that occur in the runner.  [EngineException] stands for
    whatever error object the SQL runner hands back. *)
Inductive Exception : Type :=
  | KeyError (msg : Message)
  | UpstreamFailedException (msg : Message)
  | SchemaChangeException (msg : Message)
  | EngineException (description : string).

(** The result of a Python call: a value, or a raised exception. *)
Inductive Outcome (A : Type) : Type :=
  | Returned (a : A)
  | Raised (e : Exception).
Arguments Returned {A} a.
Arguments Raised {A} e.

#[global] Instance Outcome_ret : MRet Outcome := @Returned.
#[global] Instance Outcome_bind : MBind Outcome := fun A B f m =>
  match m with
  | Returned a => f a
  | Raised e => Raised e
  end.

(** ** DryRunResult *)

Record DryRunResult : Type := mkDryRunResult {
  node : Node;
  table : option Table;
  status : DryRunStatus;
  exception : option Exception }.

(** Modelled from the spec: [DryRunResult.replace_table] builds a result
    with the same node, status and exception and the given table; the
    method is defined in [dbt_dry_run.models], outside the sources at hand. *)
Definition replace_table (self : DryRunResult) (t : Table) : DryRunResult :=
  mkDryRunResult (node self) (Some t) (status self) (exception self).

(** ** Python containers *)

(** Truth value of an [Optional] object whose class defines neither
    [__bool__] nor [__len__]: only [None] is false. *)
Definition truthy {A : Type} (o : option A) : bool :=
  match o with Some _ => true | None => false end.

(** Truth value of a set: false exactly when empty. *)
Definition set_truthy (X : gset string) : bool := negb (bool_decide (X = ∅)).

(** [X or Y] on sets: the first operand when it is true, else the second. *)
Definition set_or (X Y : gset string) : gset string :=
  if set_truthy X then X else Y.

(** An insertion-ordered dictionary with [str] keys. *)
Module PyDict.
Section dict.
Context {V : Type}.

Definition t : Type := list (string * V).

Definition empty : t := [].

(** [d[k] = v]: an existing key keeps its position and takes the new
    value; a new key goes to the end. *)
Fixpoint setitem (k : string) (v : V) (d : t) : t :=
  match d with
  | [] => [(k, v)]
  | (k', v') :: d' =>
      if decide (k = k') then (k', v) :: d'
      else (k', v') :: setitem k v d'
  end.

(** [{key(x): x for x in xs}] *)
Definition comprehension (key : V → string) (xs : list V) : t :=
  foldl (λ d x, setitem (key x) x d) empty xs.

(** [d.update(other)] *)
Definition update (d other : t) : t :=
  foldl (λ acc kv, setitem kv.1 kv.2 acc) d other.

Definition keys (d : t) : list string := d.*1.
Definition values (d : t) : list V := d.*2.

Definition get (k : string) (d : t) : option V :=
  snd <$> find (λ kv, bool_decide (kv.1 = k)) d.
End dict.
Arguments t : clear implicits.
End PyDict.

(** ** The schema-change handlers *)

Definition ignore_handler (dry_run_result : DryRunResult) (target_table : Table)
  : DryRunResult :=
  replace_table dry_run_result target_table.

Definition append_new_columns_handler
    (dry_run_result : DryRunResult) (target_table : Table) : DryRunResult :=
  match table dry_run_result with
  | None => dry_run_result
  | Some predicted =>
      let mapped_predicted_table := PyDict.comprehension name (fields predicted) in
      let mapped_target_table := PyDict.comprehension name (fields target_table) in
      let mapped_predicted_table :=
        PyDict.update mapped_predicted_table mapped_target_table in
      replace_table dry_run_result
        (mkTable (PyDict.values mapped_predicted_table))
  end.

Definition sync_all_columns_handler
    (dry_run_result : DryRunResult) (target_table : Table) : DryRunResult :=
  dry_run_result.

Definition schema_change_msg (added_fields removed_fields : gset string) : Message :=
  [ Lit ("Incremental model has changed schemas. " +:+ "Fields added: ");
    FmtSet added_fields;
    Lit (", " +:+ "Fields removed: ");
    FmtSet removed_fields ].

Definition fail_handler (dry_run_result : DryRunResult) (target_table : Table)
  : DryRunResult :=
  match table dry_run_result with
  | None => dry_run_result
  | Some predicted =>
      let predicted_table_field_names : gset string :=
        list_to_set (name <$> fields predicted) in
      let target_table_field_names : gset string :=
        list_to_set (name <$> fields target_table) in
      let added_fields := predicted_table_field_names ∖ target_table_field_names in
      let removed_fields := target_table_field_names ∖ predicted_table_field_names in
      let schema_changed := set_or added_fields removed_fields in
      if set_truthy schema_changed then
        mkDryRunResult (node dry_run_result) None FAILURE
          (Some (SchemaChangeException (schema_change_msg added_fields removed_fields)))
      else
        mkDryRunResult (node dry_run_result) (Some target_table)
          (status dry_run_result) (exception dry_run_result)
  end.

Definition ON_SCHEMA_CHANGE_TABLE_HANDLER (policy : OnSchemaChange)
  : DryRunResult → Table → DryRunResult :=
  match policy with
  | IGNORE => ignore_handler
  | APPEND_NEW_COLUMNS => append_new_columns_handler
  | SYNC_ALL_COLUMNS => sync_all_columns_handler
  | FAIL => fail_handler
  end.

(** ** Field sequences, in the words of the specification *)

(** The names of a list, each at its first occurrence. *)
Fixpoint first_occurrences (l : list string) : list string :=
  match l with
  | [] => []
  | x :: l' => x :: filter (λ y, y ≠ x) (first_occurrences l')
  end.

Definition has_name (nm : string) (f : TableField) : bool :=
  bool_decide (name f = nm).

(** The first, and the last, field of a given name. *)
Definition first_named (nm : string) (fs : list TableField) : option TableField :=
  find (has_name nm) fs.
Definition last_named (nm : string) (fs : list TableField) : option TableField :=
  find (has_name nm) (reverse fs).

(** The field sequence as the specification words it: the predicted
    fields in their order, each replaced by the target's field of the same
    name when there is one, then the fields that only the target has. *)
Definition append_new_columns_spec (predicted target : list TableField)
  : list TableField :=
  ((λ f, default f (first_named (name f) target)) <$> predicted)
  ++ filter (λ g, name g ∉ name <$> predicted) target.

(** One field per name: the names of the predicted table at their first
    occurrence, then the names that only the target has at their first
    occurrence; for each name the last field of that name in the target,
    or else the last one in the predicted table. *)
Definition merge_by_name (predicted target : list TableField)
  : list TableField :=
  let pn := name <$> predicted in
  let tn := name <$> target in
  omap (λ nm, match last_named nm target with
              | Some g => Some g
              | None => last_named nm predicted
              end)
       (first_occurrences pn ++ filter (λ nm, nm ∉ pn) (first_occurrences tn)).

(** ** The result store and the two collaborators *)

(** Modelled from the spec: the result store maps the unique identifier of
    a node to its result ([dbt_dry_run.results], outside the sources at
    hand). *)
Abbreviation ResultStore := (gmap string DryRunResult).

Definition keys (self : ResultStore) : gset string := dom self.

(** A lookup of a missing key raises [KeyError]. *)
Definition get_result (self : ResultStore) (node_key : string)
  : Outcome DryRunResult :=
  match self !! node_key with
  | Some r => Returned r
  | None => Raised (KeyError [FmtStr node_key])
  end.

(** [dbt_dry_run.literals.replace_upstream_sql] is outside the sources at
    hand; the runner is defined over any implementation of it that returns
    a string.  An exception raised inside it, which [run] would not catch,
    has no counterpart here. *)
Class LiteralSubstitution : Type :=
  replace_upstream_sql : string → Node → Table → string.

(** What [SqlRunner.query] returns. *)
Definition QueryResult : Type :=
  DryRunStatus * option Table * option Exception.

(** The SQL runner: any implementation, with a state of its own. *)
Class SqlRunner (St : Type) : Type := {
  query : string → St → QueryResult * St;
  get_node_schema : Node → St → option Table * St }.

(** A call made to the SQL runner. *)
Inductive SqlCall : Type :=
  | QueryCall (sql : string)
  | GetNodeSchemaCall (n : Node).

(** A computation that calls the SQL runner: it returns, raises, or makes
    a call and goes on with the answer. *)
Inductive SqlProg (A : Type) : Type :=
  | Ret (a : A)
  | Throw (e : Exception)
  | CallQuery (sql : string) (k : QueryResult → SqlProg A)
  | CallGetNodeSchema (n : Node) (k : option Table → SqlProg A).
Arguments Ret {A} a.
Arguments Throw {A} e.
Arguments CallQuery {A} sql k.
Arguments CallGetNodeSchema {A} n k.

Fixpoint SqlProg_bind {A B : Type} (f : A → SqlProg B) (m : SqlProg A)
  : SqlProg B :=
  match m with
  | Ret a => f a
  | Throw e => Throw e
  | CallQuery sql k => CallQuery sql (λ r, SqlProg_bind f (k r))
  | CallGetNodeSchema n k => CallGetNodeSchema n (λ r, SqlProg_bind f (k r))
  end.

#[global] Instance SqlProg_ret : MRet SqlProg := @Ret.
#[global] Instance SqlProg_mbind : MBind SqlProg := @SqlProg_bind.

Definition sql_query (sql : string) : SqlProg QueryResult := CallQuery sql Ret.
Definition sql_get_node_schema (n : Node) : SqlProg (option Table) :=
  CallGetNodeSchema n Ret.

(** Running a computation against a runner: the outcome, the calls made
    (oldest first) and the runner's final state. *)
Fixpoint exec {St : Type} `{!SqlRunner St} {A : Type} (p : SqlProg A) (s : St)
  : Outcome A * list SqlCall * St :=
  match p with
  | Ret a => (Returned a, [], s)
  | Throw e => (Raised e, [], s)
  | CallQuery sql k =>
      let '(r, s1) := query sql s in
      let '(o, calls, s2) := exec (k r) s1 in
      (o, QueryCall sql :: calls, s2)
  | CallGetNodeSchema n k =>
      let '(r, s1) := get_node_schema n s in
      let '(o, calls, s2) := exec (k r) s1 in
      (o, GetNodeSchemaCall n :: calls, s2)
  end.

(** The SQL texts that were passed to [SqlRunner.query]. *)
Definition queries (calls : list SqlCall) : list string :=
  omap (λ c, match c with QueryCall sql => Some sql | _ => None end) calls.

(** ** ModelRunner *)

Definition nl : string := String (Ascii.ascii_of_nat 10) EmptyString.

Definition upstream_failed_msg (unique_id : string) (failed : list string)
  : Message :=
  [ Lit "Can't insert SELECT literals for "; FmtStr unique_id;
    Lit " because "; FmtList failed; Lit " failed" ].

Definition deep_nodes_msg (unique_id : string) : Message :=
  [ Lit "deep_nodes have not been created for "; FmtStr unique_id ].

Definition create_view_sql (n : Node) (run_sql : string) : string :=
  "CREATE OR REPLACE VIEW `" +:+ database n +:+ "`.`" +:+ db_schema n +:+ "`.`"
    +:+ alias n +:+ "` AS (" +:+ nl +:+ run_sql +:+ nl +:+ ")".

(** [[self._results.get_result(n) for n in deep if n in self._results.keys()]] *)
Fixpoint resolve_results (results : ResultStore) (deep : list string)
  : Outcome (list DryRunResult) :=
  match deep with
  | [] => Returned []
  | n :: deep' =>
      if bool_decide (n ∈ keys results) then
        r ← get_result results n;
        rs ← resolve_results results deep';
        Returned (r :: rs)
      else resolve_results results deep'
  end.

Definition is_failed (r : DryRunResult) : bool :=
  negb (bool_decide (status r = SUCCESS)).

Section model_runner.
Context `{!LiteralSubstitution}.

(** The loop over [completed_upstreams]; an upstream in that list has a
    table. *)
Definition substitute_upstreams (sql : string)
    (completed_upstreams : list DryRunResult) : string :=
  foldl (λ node_new_sql upstream,
           match table upstream with
           | Some t => replace_upstream_sql node_new_sql (node upstream) t
           | None => node_new_sql
           end) sql completed_upstreams.

Definition _insert_dependant_sql_literals
    (self_results : ResultStore) (n : Node) : Outcome string :=
  results ←
    match deep_nodes (depends_on n) with
    | Some deep => resolve_results self_results deep
    | None => Raised (KeyError (deep_nodes_msg (unique_id n)))
    end;
  let failed_upstreams := filter (λ r, is_failed r = true) results in
  if bool_decide (failed_upstreams ≠ []) then
    Raised (UpstreamFailedException
              (upstream_failed_msg (unique_id n)
                 ((λ f, unique_id (node f)) <$> failed_upstreams)))
  else
    let completed_upstreams := filter (λ r, truthy (table r) = true) results in
    Returned (substitute_upstreams (compiled_sql n) completed_upstreams).

(** [run]: only [UpstreamFailedException] is caught; every member of
    [OnSchemaChange] and every [Table] is true, so [x or IGNORE] and
    [if target_table] only tell [None] apart. *)
Definition run (self_results : ResultStore) (n : Node) : SqlProg DryRunResult :=
  match _insert_dependant_sql_literals self_results n with
  | Raised (UpstreamFailedException msg) =>
      Ret (mkDryRunResult n None FAILURE (Some (UpstreamFailedException msg)))
  | Raised e => Throw e
  | Returned run_sql =>
      let run_sql :=
        if bool_decide (materialized (config n) = "view")
        then create_view_sql n run_sql else run_sql in
      '(status, predicted_table, exception) ← sql_query run_sql;
      let result := mkDryRunResult n predicted_table status exception in
      if bool_decide (status = SUCCESS)
         && bool_decide (materialized (config n) = "incremental") then
        target_table ← sql_get_node_schema n;
        match target_table with
        | Some target =>
            let on_schema_change :=
              default IGNORE (on_schema_change (config n)) in
            let handler := ON_SCHEMA_CHANGE_TABLE_HANDLER on_schema_change in
            Ret (handler result target)
        | None => Ret result
        end
      else Ret result
  end.
End model_runner.

(** ** The claims about the runner, in the words of the specification *)

(** The upstreams whose table is known: for each identifier of
    [deep_nodes], in order, that is in the store with a result that has a
    table, the node of that result and the table. *)
Definition known_upstream_tables (results : ResultStore) (deep : list string)
  : list (Node * Table) :=
  omap (λ k, r ← results !! k; t ← table r; Some (node r, t)) deep.

(** An identifier whose stored result is not a success. *)
Definition upstream_failed (results : ResultStore) (k : string) : bool :=
  match results !! k with
  | Some r => is_failed r
  | None => false
  end.

(** The store holds each result under the identifier of its node. *)
Definition keyed_by_unique_id (results : ResultStore) : Prop :=
  ∀ k r, results !! k = Some r → unique_id (node r) = k.

(** The SQL text that [run] sends for a node whose substituted SQL is
    [run_sql]. *)
Definition sent_sql (n : Node) (run_sql : string) : string :=
  if bool_decide (materialized (config n) = "view")
  then create_view_sql n run_sql else run_sql.

(** ** Sample values *)

Module Sample.
Definition col (nm ty : string) : TableField := mkTableField nm ty [].

Definition a : TableField := col "a" "STRING".
Definition b : TableField := col "b" "INT64".
Definition b_live : TableField := col "b" "NUMERIC".
Definition c : TableField := col "c" "DATE".
Definition a_again : TableField := col "a" "BOOL".

Definition stg_orders : Node :=
  mkNode "model.shop.stg_orders" "warehouse" "staging" "stg_orders"
    "select order_id, amount from raw.orders"
    (mkNodeConfig "view" None) (mkDependsOn (Some [])).

Definition fct_orders : Node :=
  mkNode "model.shop.fct_orders" "warehouse" "marts" "fct_orders"
    "select * from `warehouse`.`staging`.`stg_orders`"
    (mkNodeConfig "incremental" None)
    (mkDependsOn (Some ["model.shop.stg_orders"; "model.shop.not_run"])).

Definition orphan : Node :=
  mkNode "model.shop.orphan" "warehouse" "marts" "orphan" "select 1"
    (mkNodeConfig "table" None) (mkDependsOn None).

Definition predicted_ab : DryRunResult :=
  mkDryRunResult fct_orders (Some (mkTable [a; b])) SUCCESS None.

Definition stg_ok : DryRunResult :=
  mkDryRunResult stg_orders (Some (mkTable [a; b])) SUCCESS None.

Definition stg_failed : DryRunResult :=
  mkDryRunResult stg_orders None FAILURE
    (Some (EngineException "Unrecognized name: amount")).

Definition store_ok : ResultStore := {[ "model.shop.stg_orders" := stg_ok ]}.
Definition store_failed : ResultStore :=
  {[ "model.shop.stg_orders" := stg_failed ]}.

(** A stand-in for [replace_upstream_sql]: it records, in a trailing
    comment, which upstream was substituted. *)
Definition substitution : LiteralSubstitution :=
  λ sql upstream _, sql +:+ " /* " +:+ unique_id upstream +:+ " */".

(** A runner that accepts every query with the schema [a, b], reports
    the live schema [b, c] and counts the calls it has answered. *)
Definition runner : SqlRunner nat := {|
  query := λ _ calls, ((SUCCESS, Some (mkTable [a; b]), None), S calls);
  get_node_schema := λ _ calls, (Some (mkTable [b_live; c]), S calls) |}.
End Sample.

(** * Properties *)

(** ** Python sets *)

Lemma set_truthy_true (X : gset string) : set_truthy X = true ↔ X ≠ ∅.
Proof.
  unfold set_truthy. rewrite negb_true_iff, bool_decide_eq_false. done.
Qed.

Lemma set_truthy_or (X Y : gset string) :
  set_truthy (set_or X Y) = set_truthy X || set_truthy Y.
Proof. unfold set_or. by destruct (set_truthy X) eqn:E; rewrite ?E. Qed.

Lemma set_or_false (X Y : gset string) :
  set_truthy (set_or X Y) = false ↔ X = ∅ ∧ Y = ∅.
Proof.
  rewrite set_truthy_or, orb_false_iff. unfold set_truthy.
  rewrite !negb_false_iff, !bool_decide_eq_true. done.
Qed.

(** ** Ignore and SyncAllColumns *)

(** C7: the Ignore handler puts the target table in place of the predicted
    one, whatever the predicted one was (absent included), and keeps the
    node, the status and the error. *)
Theorem ignore_handler_replaces_table (r : DryRunResult) (target : Table) :
  table (ignore_handler r target) = Some target
  ∧ node (ignore_handler r target) = node r
  ∧ status (ignore_handler r target) = status r
  ∧ exception (ignore_handler r target) = exception r.
Proof. by destruct r. Qed.

(** C9: the SyncAllColumns handler is the identity on its result argument. *)
Theorem sync_all_columns_handler_id (r : DryRunResult) (target : Table) :
  sync_all_columns_handler r target = r.
Proof. reflexivity. Qed.

(** ** Fail *)

Lemma fail_handler_changed (r : DryRunResult) (predicted target : Table) :
  table r = Some predicted →
  let P : gset string := list_to_set (name <$> fields predicted) in
  let T : gset string := list_to_set (name <$> fields target) in
  P ∖ T ≠ ∅ ∨ T ∖ P ≠ ∅ →
  fail_handler r target =
    mkDryRunResult (node r) None FAILURE
      (Some (SchemaChangeException (schema_change_msg (P ∖ T) (T ∖ P)))).
Proof.
  intros Hp P T Hne. unfold fail_handler. rewrite Hp. cbv zeta.
  fold P T. destruct (set_truthy (set_or (P ∖ T) (T ∖ P))) eqn:E; [done|].
  apply set_or_false in E as [E1 E2]. by destruct Hne.
Qed.

Lemma fail_handler_same (r : DryRunResult) (predicted target : Table) :
  table r = Some predicted →
  let P : gset string := list_to_set (name <$> fields predicted) in
  let T : gset string := list_to_set (name <$> fields target) in
  P = T →
  fail_handler r target =
    mkDryRunResult (node r) (Some target) (status r) (exception r).
Proof.
  intros Hp P T Heq. unfold fail_handler. rewrite Hp. cbv zeta.
  fold P T. destruct (set_truthy (set_or (P ∖ T) (T ∖ P))) eqn:E; [|done].
  rewrite set_truthy_or, orb_true_iff, !set_truthy_true in E.
  rewrite Heq in E. set_solver.
Qed.

(** C2: the Fail handler.  With an absent predicted table the result is
    the input.  With a predicted table: if some field name is in only one
    of the two tables, the result has no table, status FAILURE and a
    SchemaChangeException whose message is "Incremental model has changed
    schemas. Fields added: <A>, Fields removed: <R>", where [A] is the set
    of the names that are in the predicted table only and [R] the set of
    the names that are in the target table only; if the two tables have
    the same field names (in any order), the result is the input with the
    target table in place of the predicted one. *)
Theorem fail_handler_spec (r : DryRunResult) (target : Table) :
  (table r = None → fail_handler r target = r)
  ∧ (∀ predicted, table r = Some predicted →
       let pn := name <$> fields predicted in
       let tn := name <$> fields target in
       ((∃ x, x ∈ pn ∧ x ∉ tn) ∨ (∃ x, x ∈ tn ∧ x ∉ pn) →
        ∃ A R : gset string,
          fail_handler r target =
            mkDryRunResult (node r) None FAILURE
              (Some (SchemaChangeException
                       [ Lit "Incremental model has changed schemas. Fields added: ";
                         FmtSet A; Lit ", Fields removed: "; FmtSet R ]))
          ∧ (∀ x, x ∈ A ↔ x ∈ pn ∧ x ∉ tn)
          ∧ (∀ x, x ∈ R ↔ x ∈ tn ∧ x ∉ pn))
       ∧ ((∀ x, x ∈ pn ↔ x ∈ tn) →
          fail_handler r target =
            mkDryRunResult (node r) (Some target) (status r) (exception r))).
Proof.
  split.
  - intros Hn. unfold fail_handler. by rewrite Hn.
  - intros predicted Hp pn tn. split.
    + intros Hdiff.
      exists (list_to_set pn ∖ list_to_set tn), (list_to_set tn ∖ list_to_set pn).
      split; [|split].
      * rewrite (fail_handler_changed r predicted target Hp); [reflexivity|].
        fold pn tn.
        destruct Hdiff as [[x [Hx Hx']]|[x [Hx Hx']]]; [left|right];
          intros E; apply (not_elem_of_empty (C:=gset string) x);
          rewrite <- E; set_solver.
      * intros x. set_solver.
      * intros x. set_solver.
    + intros Hsame.
      apply (fail_handler_same r predicted target Hp). fold pn tn.
      apply set_eq. intros x. rewrite !elem_of_list_to_set. apply Hsame.
Qed.

(** ** Insertion-ordered dictionaries *)

Section pydict_facts.
Context {V : Type}.
Implicit Types (d o : PyDict.t V) (k : string) (v : V).

Lemma setitem_keys k v d :
  PyDict.keys (PyDict.setitem k v d) =
    if decide (k ∈ PyDict.keys d) then PyDict.keys d else PyDict.keys d ++ [k].
Proof.
  unfold PyDict.keys. induction d as [|[k' v'] d IH].
  - destruct (decide (k ∈ _)) as [Hin|_]; [|done]. by apply elem_of_nil in Hin.
  - destruct (decide (k ∈ ((k', v') :: d).*1)) as [Hin|Hnin];
      csimpl; destruct (decide (k = k')) as [->|Hne]; csimpl; try done.
    + rewrite IH. rewrite decide_True; [done|].
      apply elem_of_cons in Hin. naive_solver.
    + exfalso. apply Hnin. by left.
    + rewrite IH. rewrite decide_False; [done|].
      intros Hin. apply Hnin. by right.
Qed.

Lemma setitem_get k v d k' :
  PyDict.get k' (PyDict.setitem k v d) =
    if decide (k = k') then Some v else PyDict.get k' d.
Proof.
  unfold PyDict.get. induction d as [|[k0 v0] d IH]; csimpl.
  - destruct (decide (k = k')) as [->|Hne].
    + by rewrite bool_decide_eq_true_2.
    + by rewrite bool_decide_eq_false_2.
  - destruct (decide (k = k0)) as [->|Hne0]; csimpl.
    + destruct (decide (k0 = k')) as [->|Hne].
      * by rewrite !bool_decide_eq_true_2.
      * by rewrite !bool_decide_eq_false_2.
    + destruct (decide (k0 = k')) as [->|Hne'].
      * rewrite bool_decide_eq_true_2 by done. csimpl.
        by rewrite decide_False.
      * rewrite bool_decide_eq_false_2 by done. apply IH.
Qed.

Lemma get_app k d o :
  PyDict.get k (d ++ o) =
    match PyDict.get k d with Some v => Some v | None => PyDict.get k o end.
Proof.
  unfold PyDict.get. induction d as [|[k0 v0] d IH]; csimpl; [done|].
  by destruct (bool_decide (k0 = k)).
Qed.

Lemma get_None k d : PyDict.get k d = None ↔ k ∉ PyDict.keys d.
Proof.
  unfold PyDict.get, PyDict.keys. induction d as [|[k0 v0] d IH]; csimpl.
  - split; [intros _; apply not_elem_of_nil | done].
  - rewrite not_elem_of_cons. destruct (decide (k0 = k)) as [->|Hne].
    + rewrite bool_decide_eq_true_2 by done. csimpl. naive_solver.
    + rewrite bool_decide_eq_false_2 by done. rewrite IH. naive_solver.
Qed.

Lemma update_keys d o :
  PyDict.keys (PyDict.update d o) =
    PyDict.keys d
      ++ filter (λ k, k ∉ PyDict.keys d) (first_occurrences (PyDict.keys o)).
Proof.
  unfold PyDict.update. revert d.
  induction o as [|[k v] o IH]; intros d; csimpl.
  - by rewrite filter_nil, app_nil_r.
  - rewrite IH, setitem_keys. fold (PyDict.keys o).
    set (L := first_occurrences (PyDict.keys o)).
    destruct (decide (k ∈ PyDict.keys d)) as [Hin|Hnin].
    + rewrite filter_cons_False by naive_solver.
      f_equal. rewrite list_filter_filter. apply list_filter_iff.
      intros x. naive_solver.
    + rewrite filter_cons_True by done.
      rewrite <- app_assoc. csimpl. do 2 f_equal.
      rewrite list_filter_filter. apply list_filter_iff.
      intros x. rewrite not_elem_of_app, list_elem_of_singleton. naive_solver.
Qed.

Lemma update_get d o k :
  PyDict.get k (PyDict.update d o) =
    match PyDict.get k (reverse o) with
    | Some v => Some v
    | None => PyDict.get k d
    end.
Proof.
  unfold PyDict.update. revert d.
  induction o as [|[k0 v0] o IH]; intros d; csimpl; [done|].
  rewrite IH, reverse_cons, get_app, setitem_get.
  destruct (PyDict.get k (reverse o)); [done|].
  unfold PyDict.get at 2. csimpl.
  destruct (decide (k0 = k)) as [->|Hne].
  - by rewrite bool_decide_eq_true_2.
  - by rewrite bool_decide_eq_false_2.
Qed.
End pydict_facts.

Lemma omap_ext_elem {A B : Type} (f g : A → option B) (l : list A) :
  (∀ x, x ∈ l → f x = g x) → omap f l = omap g l.
Proof.
  induction l as [|a l IH]; intros Hfg; [done|]. csimpl.
  rewrite (Hfg a) by (by left). rewrite IH; [done|].
  intros x Hx. apply Hfg. by right.
Qed.

Lemma filter_all {A : Type} (P : A → Prop) `{!∀ x, Decision (P x)} (l : list A) :
  (∀ x, x ∈ l → P x) → filter P l = l.
Proof.
  induction l as [|a l IH]; intros HP; [done|].
  rewrite filter_cons_True by (apply HP; by left).
  f_equal. apply IH. intros x Hx. apply HP. by right.
Qed.

(** ** First occurrences *)

Lemma first_occurrences_elem (l : list string) (x : string) :
  x ∈ first_occurrences l ↔ x ∈ l.
Proof.
  induction l as [|a l IH]; [done|]. simpl.
  rewrite !elem_of_cons, list_elem_of_filter, IH.
  destruct (decide (x = a)); naive_solver.
Qed.

Lemma first_occurrences_NoDup (l : list string) : NoDup (first_occurrences l).
Proof.
  induction l as [|a l IH]; simpl; [constructor|].
  constructor; [|by apply NoDup_filter].
  rewrite list_elem_of_filter. naive_solver.
Qed.

Lemma first_occurrences_id (l : list string) :
  NoDup l → first_occurrences l = l.
Proof.
  induction 1 as [|a l Hnin Hnd IH]; [done|]. simpl. rewrite IH. f_equal.
  apply filter_all. intros x Hx ->. done.
Qed.

Section pydict_values.
Context {V : Type}.
Implicit Types (d o : PyDict.t V) (k : string) (v : V).

Lemma update_NoDup d o :
  NoDup (PyDict.keys d) → NoDup (PyDict.keys (PyDict.update d o)).
Proof.
  intros Hd. rewrite update_keys. apply NoDup_app. split; [done|]. split.
  - intros x Hx. rewrite list_elem_of_filter. naive_solver.
  - apply NoDup_filter, first_occurrences_NoDup.
Qed.

Lemma values_by_keys d :
  NoDup (PyDict.keys d) →
  PyDict.values d = omap (λ k, PyDict.get k d) (PyDict.keys d).
Proof.
  unfold PyDict.values, PyDict.keys.
  induction d as [|[k0 v0] d IH]; csimpl; [done|].
  intros Hnd. apply NoDup_cons in Hnd as [Hnin Hnd].
  unfold PyDict.get at 1. csimpl. rewrite bool_decide_eq_true_2 by done.
  csimpl. f_equal. rewrite IH by done. apply omap_ext_elem.
  intros k Hk. unfold PyDict.get. csimpl.
  rewrite bool_decide_eq_false_2; [done|]. by intros ->.
Qed.

Lemma get_reverse k d :
  NoDup (PyDict.keys d) → PyDict.get k (reverse d) = PyDict.get k d.
Proof.
  unfold PyDict.keys. induction d as [|[k0 v0] d IH]; csimpl; [done|].
  intros Hnd. apply NoDup_cons in Hnd as [Hnin Hnd].
  rewrite reverse_cons, get_app, IH by done.
  change ((k0, v0) :: d) with ([(k0, v0)] ++ d). rewrite (get_app k [_] d).
  destruct (decide (k0 = k)) as [->|Hne].
  - rewrite (proj2 (get_None k d) Hnin).
    unfold PyDict.get. csimpl. by rewrite bool_decide_eq_true_2.
  - replace (PyDict.get k [(k0, v0)]) with (@None V);
      [by destruct (PyDict.get k d)|].
    unfold PyDict.get. csimpl. by rewrite bool_decide_eq_false_2.
Qed.

Lemma comprehension_update (key : V → string) (xs : list V) :
  PyDict.comprehension key xs =
    PyDict.update PyDict.empty ((λ x, (key x, x)) <$> xs).
Proof. unfold PyDict.comprehension, PyDict.update. by rewrite foldl_fmap. Qed.

Lemma get_pairs (key : V → string) (xs : list V) k :
  PyDict.get k ((λ x, (key x, x)) <$> xs) =
    find (λ x, bool_decide (key x = k)) xs.
Proof.
  unfold PyDict.get. induction xs as [|x xs IH]; csimpl; [done|].
  by destruct (bool_decide (key x = k)).
Qed.

Lemma comprehension_keys (key : V → string) (xs : list V) :
  PyDict.keys (PyDict.comprehension key xs) = first_occurrences (key <$> xs).
Proof.
  rewrite comprehension_update, update_keys. csimpl.
  rewrite filter_all by (intros x _; apply not_elem_of_nil).
  unfold PyDict.keys. by rewrite <- list_fmap_compose.
Qed.

Lemma comprehension_NoDup (key : V → string) (xs : list V) :
  NoDup (PyDict.keys (PyDict.comprehension key xs)).
Proof. rewrite comprehension_keys. apply first_occurrences_NoDup. Qed.

Lemma comprehension_get (key : V → string) (xs : list V) k :
  PyDict.get k (PyDict.comprehension key xs) =
    find (λ x, bool_decide (key x = k)) (reverse xs).
Proof.
  rewrite comprehension_update, update_get.
  rewrite <- fmap_reverse, get_pairs.
  by destruct (find _ _).
Qed.
End pydict_values.

(** ** AppendNewColumns *)

Lemma last_named_first_named (nm : string) (fs : list TableField) :
  NoDup (name <$> fs) → last_named nm fs = first_named nm fs.
Proof.
  intros Hnd. unfold last_named, first_named, has_name.
  rewrite <- !(get_pairs name), fmap_reverse. apply get_reverse.
  unfold PyDict.keys. by rewrite <- list_fmap_compose.
Qed.

Lemma first_named_self (f : TableField) (fs : list TableField) :
  NoDup (name <$> fs) → f ∈ fs → first_named (name f) fs = Some f.
Proof.
  unfold first_named, has_name.
  induction fs as [|a fs IH]; csimpl; intros Hnd Hin.
  - by apply elem_of_nil in Hin.
  - apply NoDup_cons in Hnd as [Hnin Hnd].
    apply elem_of_cons in Hin as [->|Hin].
    + by rewrite bool_decide_eq_true_2.
    + rewrite bool_decide_eq_false_2; [by apply IH|].
      intros Heq. apply Hnin. rewrite Heq. by apply list_elem_of_fmap_2.
Qed.

Lemma first_named_None (nm : string) (fs : list TableField) :
  nm ∉ name <$> fs → first_named nm fs = None.
Proof.
  unfold first_named, has_name. induction fs as [|a fs IH]; csimpl; [done|].
  rewrite not_elem_of_cons. intros [Hne Hnin].
  rewrite bool_decide_eq_false_2 by done. by apply IH.
Qed.

Lemma omap_names {B : Type} (F : string → option B) (G : TableField → B)
    (fs : list TableField) :
  (∀ f, f ∈ fs → F (name f) = Some (G f)) → omap F (name <$> fs) = G <$> fs.
Proof.
  induction fs as [|a fs IH]; csimpl; intros HF; [done|].
  rewrite (HF a) by (by left). f_equal. apply IH.
  intros f Hf. apply HF. by right.
Qed.

Lemma omap_filter_names (F : string → option TableField) (Q : string → Prop)
    `{!∀ nm, Decision (Q nm)} (fs : list TableField) :
  (∀ f, f ∈ fs → F (name f) = Some f) →
  omap F (filter Q (name <$> fs)) = filter (λ f, Q (name f)) fs.
Proof.
  induction fs as [|a fs IH]; csimpl; intros HF; [done|].
  assert (omap F (filter Q (name <$> fs)) = filter (λ f, Q (name f)) fs) as IH'.
  { apply IH. intros f Hf. apply HF. by right. }
  destruct (decide (Q (name a))) as [HQ|HQ].
  - rewrite !filter_cons_True by done. csimpl.
    rewrite (HF a) by (by left). by rewrite IH'.
  - by rewrite !filter_cons_False by done.
Qed.

(** What the dictionary arithmetic of the handler leaves in
    [mapped_predicted_table.values()]. *)
Lemma append_new_columns_values (predicted target : list TableField) :
  PyDict.values
    (PyDict.update (PyDict.comprehension name predicted)
                   (PyDict.comprehension name target))
  = merge_by_name predicted target.
Proof.
  rewrite values_by_keys by apply update_NoDup, comprehension_NoDup.
  rewrite update_keys, !comprehension_keys.
  rewrite (first_occurrences_id (first_occurrences _))
    by apply first_occurrences_NoDup.
  unfold merge_by_name.
  rewrite (list_filter_iff (λ k, k ∉ first_occurrences (name <$> predicted))
             (λ nm, nm ∉ name <$> predicted))
    by (intros x; by rewrite first_occurrences_elem).
  apply omap_ext_elem. intros k _.
  rewrite update_get, get_reverse by apply comprehension_NoDup.
  by rewrite !comprehension_get.
Qed.

(** With distinct names in each table, one field per name is what the
    specification words. *)
Lemma merge_by_name_distinct (predicted target : list TableField) :
  NoDup (name <$> predicted) → NoDup (name <$> target) →
  merge_by_name predicted target = append_new_columns_spec predicted target.
Proof.
  intros Hp Ht. unfold merge_by_name, append_new_columns_spec.
  rewrite !first_occurrences_id by done. rewrite omap_app. f_equal.
  - apply omap_names. intros f Hf.
    rewrite !last_named_first_named by done.
    rewrite (first_named_self f predicted) by done.
    by destruct (first_named (name f) target).
  - rewrite (omap_filter_names _ (λ nm, nm ∉ name <$> predicted)); [done|].
    intros g Hg. rewrite last_named_first_named by done.
    by rewrite first_named_self.
Qed.

(** C3 (amended): the AppendNewColumns handler.  With an absent predicted
    table the result is the input.  With a predicted table the node, the
    status and the error are kept and the new table holds one field per
    field name ([merge_by_name]): the names of the predicted table in the
    order of their first occurrence, then the names that only the target
    table has; the field kept for a name is the last one of that name in
    the target table, or else the last one in the predicted table.  When
    no two fields of the predicted table share a name and no two fields
    of the target table do, that sequence is the predicted fields in
    their order, each replaced by the target's field of the same name when
    there is one, followed by the fields that only the target has. *)
Theorem append_new_columns_handler_spec (r : DryRunResult) (target : Table) :
  (table r = None → append_new_columns_handler r target = r)
  ∧ (∀ predicted, table r = Some predicted →
       append_new_columns_handler r target =
         mkDryRunResult (node r)
           (Some (mkTable (merge_by_name (fields predicted) (fields target))))
           (status r) (exception r)
       ∧ (NoDup (name <$> fields predicted) → NoDup (name <$> fields target) →
          merge_by_name (fields predicted) (fields target) =
            append_new_columns_spec (fields predicted) (fields target))).
Proof.
  split.
  - intros Hn. unfold append_new_columns_handler. by rewrite Hn.
  - intros predicted Hp. split.
    + unfold append_new_columns_handler. rewrite Hp. cbv zeta.
      by rewrite append_new_columns_values.
    + apply merge_by_name_distinct.
Qed.

(** ** Resolving the upstream results *)

Lemma resolve_results_omap (results : ResultStore) (deep : list string) :
  resolve_results results deep = Returned (omap (results !!.) deep).
Proof.
  induction deep as [|k deep IH]; csimpl; [done|]. unfold keys, get_result.
  destruct (results !! k) as [r|] eqn:Hk.
  - rewrite bool_decide_eq_true_2 by (apply elem_of_dom; eauto).
    by rewrite IH.
  - rewrite bool_decide_eq_false_2; [done|].
    rewrite elem_of_dom, Hk. by intros [? ?].
Qed.

Lemma is_failed_true (r : DryRunResult) : is_failed r = true ↔ status r ≠ SUCCESS.
Proof. unfold is_failed. by rewrite negb_true_iff, bool_decide_eq_false. Qed.

Lemma filter_is_failed (rs : list DryRunResult) :
  filter (λ r, is_failed r = true) rs = filter (λ r, status r ≠ SUCCESS) rs.
Proof. apply list_filter_iff, is_failed_true. Qed.

Lemma filter_nil_iff {A : Type} (P : A → Prop) `{!∀ x, Decision (P x)}
    (l : list A) :
  filter P l = [] ↔ ∀ x, x ∈ l → ¬ P x.
Proof.
  split.
  - intros Hnil x Hx HP.
    assert (x ∈ filter P l) as Hin by (by apply list_elem_of_filter).
    rewrite Hnil in Hin. by apply elem_of_nil in Hin.
  - intros Hall. destruct (filter P l) as [|a l'] eqn:E; [done|].
    assert (a ∈ filter P l) as Hin by (rewrite E; by left).
    apply list_elem_of_filter in Hin as [HP Hin]. by destruct (Hall a Hin).
Qed.

Section model_runner_facts.
Context `{!LiteralSubstitution}.

(** The two ways out of the substitution step once [deep_nodes] is set. *)
Lemma insert_literals_failed results n deep :
  deep_nodes (depends_on n) = Some deep →
  let failed := filter (λ r, status r ≠ SUCCESS) (omap (results !!.) deep) in
  failed ≠ [] →
  _insert_dependant_sql_literals results n =
    Raised (UpstreamFailedException
              (upstream_failed_msg (unique_id n)
                 ((λ f, unique_id (node f)) <$> failed))).
Proof.
  intros Hd failed Hne. unfold _insert_dependant_sql_literals.
  rewrite Hd, resolve_results_omap. csimpl.
  rewrite filter_is_failed. fold failed.
  by rewrite bool_decide_eq_true_2.
Qed.

Lemma insert_literals_ok results n deep :
  deep_nodes (depends_on n) = Some deep →
  filter (λ r, status r ≠ SUCCESS) (omap (results !!.) deep) = [] →
  _insert_dependant_sql_literals results n =
    Returned (substitute_upstreams (compiled_sql n)
                (filter (λ r, truthy (table r) = true)
                   (omap (results !!.) deep))).
Proof.
  intros Hd Hnil. unfold _insert_dependant_sql_literals.
  rewrite Hd, resolve_results_omap. csimpl.
  rewrite filter_is_failed, Hnil.
  by rewrite bool_decide_eq_false_2 by (by intros ?).
Qed.

Lemma insert_literals_missing results n :
  deep_nodes (depends_on n) = None →
  _insert_dependant_sql_literals results n =
    Raised (KeyError (deep_nodes_msg (unique_id n))).
Proof. intros Hd. unfold _insert_dependant_sql_literals. by rewrite Hd. Qed.

(** The substitution step never raises anything but the two exceptions
    above. *)
Lemma insert_literals_cases results n :
  match _insert_dependant_sql_literals results n with
  | Returned _ => is_Some (deep_nodes (depends_on n))
  | Raised (UpstreamFailedException _) => is_Some (deep_nodes (depends_on n))
  | Raised (KeyError _) => deep_nodes (depends_on n) = None
  | Raised _ => False
  end.
Proof.
  destruct (deep_nodes (depends_on n)) as [deep|] eqn:Hd.
  - destruct (decide (filter (λ r, status r ≠ SUCCESS)
                        (omap (results !!.) deep) = [])) as [Hnil|Hne].
    + rewrite (insert_literals_ok _ _ _ Hd Hnil). eauto.
    + rewrite (insert_literals_failed _ _ _ Hd Hne). eauto.
  - by rewrite (insert_literals_missing _ _ Hd).
Qed.
End model_runner_facts.

Lemma failed_ids_by_key (results : ResultStore) (deep : list string) :
  keyed_by_unique_id results →
  (λ f, unique_id (node f))
    <$> filter (λ r, status r ≠ SUCCESS) (omap (results !!.) deep)
  = filter (λ k, upstream_failed results k = true) deep.
Proof.
  intros Hkey. induction deep as [|k deep IH]; csimpl; [done|].
  unfold upstream_failed at 1.
  destruct (results !! k) as [r|] eqn:Hk; csimpl.
  - destruct (decide (status r ≠ SUCCESS)) as [Hf|Hs].
    + rewrite filter_cons_True by done.
      rewrite filter_cons_True
        by (unfold upstream_failed; rewrite Hk; by apply is_failed_true).
      csimpl. rewrite IH. f_equal. by apply Hkey.
    + rewrite filter_cons_False by done.
      rewrite filter_cons_False; [done|].
      unfold upstream_failed. rewrite Hk. by rewrite is_failed_true.
  - rewrite filter_cons_False; [done|].
    unfold upstream_failed. by rewrite Hk.
Qed.

Lemma no_failed_filter (rs : list DryRunResult) :
  Forall (λ r, status r = SUCCESS) rs →
  filter (λ r, status r ≠ SUCCESS) rs = [].
Proof.
  intros Hok. apply filter_nil_iff. intros r Hr Hf.
  by apply Hf, (proj1 (Forall_forall _ _) Hok).
Qed.

Lemma string_length_app (s1 s2 : string) :
  String.length (s1 +:+ s2) = String.length s1 + String.length s2.
Proof.
  induction s1 as [|a s1 IH]; [done|].
  change (S (String.length (s1 +:+ s2))
          = S (String.length s1 + String.length s2)).
  by rewrite IH.
Qed.

Lemma create_view_sql_neq (n : Node) (run_sql : string) :
  create_view_sql n run_sql ≠ run_sql.
Proof.
  intros Heq. apply (f_equal String.length) in Heq.
  unfold create_view_sql in Heq. rewrite !string_length_app in Heq.
  cbn in Heq. lia.
Qed.

Section model_runner_claims.
Context `{!LiteralSubstitution}.

(** C1: when some resolved upstream result is not a success, [run]
    returns, without calling the SQL runner, a result for the node with
    no table, status FAILURE and an UpstreamFailedException whose message
    is "Can't insert SELECT literals for <id> because <ids> failed", where
    <id> is the node's unique identifier and <ids> the list of the
    identifiers of the failed upstream results, in [deep_nodes] order.
    When the store holds each result under its node's identifier, that
    list is the identifiers of [deep_nodes] whose result failed. *)
Theorem run_upstream_failed (results : ResultStore) (n : Node)
    (deep : list string) :
  deep_nodes (depends_on n) = Some deep →
  let resolved := omap (results !!.) deep in
  Exists (λ r, status r ≠ SUCCESS) resolved →
  let ids := (λ f, unique_id (node f))
               <$> filter (λ r, status r ≠ SUCCESS) resolved in
  let failure :=
    mkDryRunResult n None FAILURE
      (Some (UpstreamFailedException
               [ Lit "Can't insert SELECT literals for "; FmtStr (unique_id n);
                 Lit " because "; FmtList ids; Lit " failed" ])) in
  run results n = Ret failure
  ∧ (∀ St (R : SqlRunner St) (s : St),
       exec (run results n) s = (Returned failure, [], s))
  ∧ (∀ r, r ∈ resolved → status r ≠ SUCCESS → unique_id (node r) ∈ ids)
  ∧ (∀ i, i ∈ ids →
       ∃ r, r ∈ resolved ∧ status r ≠ SUCCESS ∧ unique_id (node r) = i)
  ∧ (keyed_by_unique_id results →
     ids = filter (λ k, upstream_failed results k = true) deep).
Proof.
  intros Hd resolved [r0 [Hr0 Hf0]]%Exists_exists ids failure.
  assert (run results n = Ret failure) as Hrun.
  { unfold run. rewrite (insert_literals_failed results n deep Hd); [done|].
    fold resolved. intros Hnil.
    by apply (proj1 (filter_nil_iff _ _) Hnil r0). }
  split; [done|]. split; [|split; [|split]].
  - intros St R s. by rewrite Hrun.
  - intros r Hr Hf. unfold ids.
    apply (list_elem_of_fmap_2 (λ f, unique_id (node f))).
    by apply list_elem_of_filter.
  - intros i Hi. unfold ids in Hi.
    apply list_elem_of_fmap in Hi as [r [-> Hr]].
    apply list_elem_of_filter in Hr as [Hf Hr]. eauto.
  - intros Hkey. by apply failed_ids_by_key.
Qed.

(** C5: when [deep_nodes] is unset, [run] raises the KeyError that says
    so (the specification's MissingDependencyGraphError) and makes no
    call to the SQL runner. *)
Theorem run_missing_deep_nodes (results : ResultStore) (n : Node) :
  deep_nodes (depends_on n) = None →
  run results n = Throw (KeyError (deep_nodes_msg (unique_id n)))
  ∧ ∀ St (R : SqlRunner St) (s : St),
      exec (run results n) s =
        (Raised (KeyError (deep_nodes_msg (unique_id n))), [], s).
Proof.
  intros Hd.
  assert (run results n = Throw (KeyError (deep_nodes_msg (unique_id n))))
    as Hrun.
  { unfold run. by rewrite (insert_literals_missing results n Hd). }
  split; [done|]. intros St R s. by rewrite Hrun.
Qed.

Lemma insert_literals_returns (results : ResultStore) (n : Node)
    (deep : list string) :
  deep_nodes (depends_on n) = Some deep →
  Forall (λ r, status r = SUCCESS) (omap (results !!.) deep) →
  _insert_dependant_sql_literals results n =
    Returned (substitute_upstreams (compiled_sql n)
                (filter (λ r, truthy (table r) = true)
                   (omap (results !!.) deep))).
Proof.
  intros Hd Hok. apply insert_literals_ok; [done|].
  by apply no_failed_filter.
Qed.

Lemma substitute_known (results : ResultStore) (deep : list string)
    (sql : string) :
  substitute_upstreams sql
    (filter (λ r, truthy (table r) = true) (omap (results !!.) deep))
  = foldl (λ acc ut, replace_upstream_sql acc ut.1 ut.2) sql
      (known_upstream_tables results deep).
Proof.
  unfold substitute_upstreams, known_upstream_tables. revert sql.
  induction deep as [|k deep IH]; intros sql; csimpl; [done|].
  destruct (results !! k) as [r|]; csimpl; [|apply IH].
  destruct (table r) as [t|] eqn:Ht; csimpl.
  - rewrite filter_cons_True by (by rewrite Ht). csimpl.
    rewrite Ht. apply IH.
  - rewrite filter_cons_False by (by rewrite Ht). apply IH.
Qed.

(** C6: with [deep_nodes] set and no failed resolved upstream, the
    substitution step returns the left fold of [replace_upstream_sql],
    from the node's compiled SQL, over the upstreams that are in the
    store with a table, in [deep_nodes] order; identifiers that are not
    in the store and results without a table take no part. *)
Theorem insert_literals_fold (results : ResultStore) (n : Node)
    (deep : list string) :
  deep_nodes (depends_on n) = Some deep →
  Forall (λ r, status r = SUCCESS) (omap (results !!.) deep) →
  _insert_dependant_sql_literals results n =
    Returned (foldl (λ sql ut, replace_upstream_sql sql ut.1 ut.2)
                (compiled_sql n) (known_upstream_tables results deep)).
Proof.
  intros Hd Hok. rewrite (insert_literals_returns results n deep Hd Hok).
  by rewrite substitute_known.
Qed.

(** What [run] does once the substitution step has returned. *)
Lemma exec_run_ok {St : Type} `{!SqlRunner St} (results : ResultStore)
    (n : Node) (run_sql : string) (s : St) :
  _insert_dependant_sql_literals results n = Returned run_sql →
  exec (run results n) s =
    let '(st, tbl, exc, s1) := query (sent_sql n run_sql) s in
    let base := mkDryRunResult n tbl st exc in
    if bool_decide (st = SUCCESS)
       && bool_decide (materialized (config n) = "incremental") then
      let '(target, s2) := get_node_schema n s1 in
      (Returned
         match target with
         | Some t =>
             ON_SCHEMA_CHANGE_TABLE_HANDLER
               (default IGNORE (on_schema_change (config n))) base t
         | None => base
         end,
       [QueryCall (sent_sql n run_sql); GetNodeSchemaCall n], s2)
    else (Returned base, [QueryCall (sent_sql n run_sql)], s1).
Proof.
  intros Hins. unfold run. rewrite Hins. fold (sent_sql n run_sql). simpl.
  destruct (query (sent_sql n run_sql) s) as [[[st tbl] exc] s1]. simpl.
  destruct (bool_decide (st = SUCCESS)
            && bool_decide (materialized (config n) = "incremental")); simpl;
    [|done].
  destruct (get_node_schema n s1) as [[t|] s2]; by simpl.
Qed.

(** C4: for a node that reaches the query (its [deep_nodes] is set and
    no resolved upstream failed), let [base] be the result built from the
    answer of [SqlRunner.query].  When the status is SUCCESS, the node is
    materialized as "incremental" and [SqlRunner.get_node_schema] answers
    a table, [run] returns the handler of the node's policy applied to
    [base] and that table, and an unset policy means the Ignore handler.
    In every other case [run] returns [base]: when the schema is absent,
    and, without asking for the schema at all, when the status is not
    SUCCESS or the materialization is not "incremental". *)
Theorem run_reconciles {St : Type} `{!SqlRunner St} (results : ResultStore)
    (n : Node) (deep : list string) (s s1 s2 : St)
    (st : DryRunStatus) (tbl : option Table) (exc : option Exception)
    (target : option Table) :
  deep_nodes (depends_on n) = Some deep →
  Forall (λ r, status r = SUCCESS) (omap (results !!.) deep) →
  ∃ run_sql,
    _insert_dependant_sql_literals results n = Returned run_sql
    ∧ (query (sent_sql n run_sql) s = (st, tbl, exc, s1) →
       get_node_schema n s1 = (target, s2) →
       let base := mkDryRunResult n tbl st exc in
       let policy := default IGNORE (on_schema_change (config n)) in
       let asked := [QueryCall (sent_sql n run_sql); GetNodeSchemaCall n] in
       (∀ t, st = SUCCESS → materialized (config n) = "incremental" →
             target = Some t →
             exec (run results n) s =
               (Returned (ON_SCHEMA_CHANGE_TABLE_HANDLER policy base t),
                asked, s2)
             ∧ (on_schema_change (config n) = None →
                ON_SCHEMA_CHANGE_TABLE_HANDLER policy base t =
                  ignore_handler base t))
       ∧ (st = SUCCESS → materialized (config n) = "incremental" →
          target = None →
          exec (run results n) s = (Returned base, asked, s2))
       ∧ (¬ (st = SUCCESS ∧ materialized (config n) = "incremental") →
          exec (run results n) s =
            (Returned base, [QueryCall (sent_sql n run_sql)], s1))).
Proof.
  intros Hd Hok. eexists. split; [by apply insert_literals_returns|].
  intros Hq Hg base policy asked.
  rewrite (exec_run_ok results n _ s (insert_literals_returns _ _ _ Hd Hok)).
  rewrite Hq. cbv zeta. split; [|split].
  - intros t -> Hm ->. rewrite !bool_decide_eq_true_2 by done. simpl.
    rewrite Hg. split; [done|]. intros Hnone. unfold policy.
    by rewrite Hnone.
  - intros -> Hm ->. rewrite !bool_decide_eq_true_2 by done. simpl.
    by rewrite Hg.
  - intros Hnot.
    destruct (bool_decide (st = SUCCESS)
              && bool_decide (materialized (config n) = "incremental"))
      eqn:E; [|done].
    apply andb_true_iff in E as [E1 E2].
    apply bool_decide_eq_true in E1, E2. by destruct Hnot.
Qed.

(** C8: for a node that reaches the query, [run] makes exactly one query;
    its SQL is the substituted SQL inside a CREATE OR REPLACE VIEW
    statement for `database`.`schema`.`alias` when the node is
    materialized as "view", and the substituted SQL itself for every
    other materialization; the two never coincide. *)
Theorem run_query_sql (results : ResultStore) (n : Node)
    (deep : list string) :
  deep_nodes (depends_on n) = Some deep →
  Forall (λ r, status r = SUCCESS) (omap (results !!.) deep) →
  ∃ run_sql sent,
    _insert_dependant_sql_literals results n = Returned run_sql
    ∧ (∀ St (R : SqlRunner St) (s : St),
         queries (exec (run results n) s).1.2 = [sent])
    ∧ (materialized (config n) = "view" →
       sent = "CREATE OR REPLACE VIEW `" +:+ database n +:+ "`.`"
                +:+ db_schema n +:+ "`.`" +:+ alias n +:+ "` AS ("
                +:+ nl +:+ run_sql +:+ nl +:+ ")")
    ∧ (materialized (config n) ≠ "view" → sent = run_sql)
    ∧ (sent = create_view_sql n run_sql ↔ materialized (config n) = "view").
Proof.
  intros Hd Hok.
  pose proof (insert_literals_returns results n deep Hd Hok) as Hins.
  set (run_sql := substitute_upstreams _ _) in Hins.
  exists run_sql, (sent_sql n run_sql).
  split; [exact Hins|]. split; [|split; [|split]].
  - intros St R s. rewrite (exec_run_ok results n _ s Hins).
    destruct (query _ s) as [[[st tbl] exc] s1].
    destruct (bool_decide (st = SUCCESS) && _); [|done].
    by destruct (get_node_schema n s1) as [target s2].
  - intros Hv. unfold sent_sql. by rewrite bool_decide_eq_true_2.
  - intros Hv. unfold sent_sql. by rewrite bool_decide_eq_false_2.
  - unfold sent_sql. case_bool_decide as Hv; [done|]. split; [|done].
    intros Heq. symmetry in Heq. by apply create_view_sql_neq in Heq.
Qed.

(** The four handlers keep the node of the result they are given. *)
Lemma handler_node (policy : OnSchemaChange) (r : DryRunResult)
    (target : Table) :
  node (ON_SCHEMA_CHANGE_TABLE_HANDLER policy r target) = node r.
Proof.
  destruct policy; simpl; [done| |done|].
  - unfold append_new_columns_handler. by destruct (table r).
  - unfold fail_handler. destruct (table r); [|done].
    by destruct (set_truthy _).
Qed.

(** C10: whatever the store holds and however the SQL runner answers,
    [run] either returns a result whose node is the node it was given,
    or, when [deep_nodes] is unset and only then, raises; and each of the
    four handlers returns a result for the node of its input. *)
Theorem run_node {St : Type} `{!SqlRunner St} (results : ResultStore)
    (n : Node) (s : St) :
  match (exec (run results n) s).1.1 with
  | Returned r => node r = n ∧ is_Some (deep_nodes (depends_on n))
  | Raised _ => deep_nodes (depends_on n) = None
  end
  ∧ ∀ policy r target,
      node (ON_SCHEMA_CHANGE_TABLE_HANDLER policy r target) = node r.
Proof.
  split; [|apply handler_node].
  pose proof (insert_literals_cases results n) as Hcases.
  destruct (_insert_dependant_sql_literals results n) as [run_sql|e] eqn:Hins.
  - rewrite (exec_run_ok results n run_sql s Hins).
    destruct (query _ s) as [[[st tbl] exc] s1].
    destruct (bool_decide (st = SUCCESS) && _); [|done].
    destruct (get_node_schema n s1) as [[t|] s2]; simpl; [|done].
    by rewrite handler_node.
  - unfold run. rewrite Hins. by destruct e.
Qed.
End model_runner_claims.

(** ** The theorems at the sample values *)

Lemma run_upstream_failed_witness :
  @run Sample.substitution Sample.store_failed Sample.fct_orders =
    Ret (mkDryRunResult Sample.fct_orders None FAILURE
           (Some (UpstreamFailedException
                    [ Lit "Can't insert SELECT literals for ";
                      FmtStr "model.shop.fct_orders"; Lit " because ";
                      FmtList ["model.shop.stg_orders"]; Lit " failed" ]))).
Proof.
  refine (proj1 (@run_upstream_failed Sample.substitution Sample.store_failed
                   Sample.fct_orders _ eq_refl _)).
  vm_compute. apply Exists_cons_hd. discriminate.
Defined.

Lemma run_missing_deep_nodes_witness :
  @run Sample.substitution Sample.store_ok Sample.orphan =
    Throw (KeyError [Lit "deep_nodes have not been created for ";
                     FmtStr "model.shop.orphan"]).
Proof.
  exact (proj1 (@run_missing_deep_nodes Sample.substitution Sample.store_ok
                  Sample.orphan eq_refl)).
Defined.

Lemma insert_literals_fold_witness :
  @_insert_dependant_sql_literals Sample.substitution
    Sample.store_ok Sample.fct_orders =
    Returned "select * from `warehouse`.`staging`.`stg_orders` /* model.shop.stg_orders */".
Proof.
  refine (@insert_literals_fold Sample.substitution Sample.store_ok
            Sample.fct_orders _ eq_refl _).
  vm_compute. apply Forall_cons. split; [reflexivity|apply Forall_nil_2].
Defined.

Lemma fail_handler_spec_witness :
  (∃ A R : gset string,
     fail_handler Sample.predicted_ab (mkTable [Sample.a; Sample.c]) =
       mkDryRunResult Sample.fct_orders None FAILURE
         (Some (SchemaChangeException
                  [ Lit "Incremental model has changed schemas. Fields added: ";
                    FmtSet A; Lit ", Fields removed: "; FmtSet R ]))
     ∧ (∀ x, x ∈ A ↔ x ∈ ["a"; "b"] ∧ x ∉ ["a"; "c"])
     ∧ (∀ x, x ∈ R ↔ x ∈ ["a"; "c"] ∧ x ∉ ["a"; "b"]))
  ∧ fail_handler Sample.predicted_ab (mkTable [Sample.b; Sample.a]) =
      mkDryRunResult Sample.fct_orders (Some (mkTable [Sample.b; Sample.a]))
        SUCCESS None.
Proof.
  split.
  - apply (proj1 (proj2 (fail_handler_spec Sample.predicted_ab
                           (mkTable [Sample.a; Sample.c])) _ eq_refl)).
    left. exists "b". split.
    + change ("b" ∈ ["a"; "b"]). rewrite !elem_of_cons. tauto.
    + change ("b" ∉ ["a"; "c"]). rewrite !not_elem_of_cons.
      repeat split; [discriminate | discriminate | apply not_elem_of_nil].
  - apply (proj2 (proj2 (fail_handler_spec Sample.predicted_ab
                           (mkTable [Sample.b; Sample.a])) _ eq_refl)).
    intros x. change (x ∈ ["a"; "b"] ↔ x ∈ ["b"; "a"]).
    rewrite !elem_of_cons. tauto.
Defined.

Lemma append_new_columns_handler_spec_witness :
  append_new_columns_handler Sample.predicted_ab
    (mkTable [Sample.b_live; Sample.c]) =
    mkDryRunResult Sample.fct_orders
      (Some (mkTable [Sample.a; Sample.b_live; Sample.c])) SUCCESS None
  ∧ merge_by_name [Sample.a; Sample.b] [Sample.b_live; Sample.c] =
      append_new_columns_spec [Sample.a; Sample.b] [Sample.b_live; Sample.c].
Proof.
  destruct (proj2 (append_new_columns_handler_spec Sample.predicted_ab
                     (mkTable [Sample.b_live; Sample.c])) _ eq_refl)
    as [Hcode Hspec].
  split; [exact Hcode|].
  apply Hspec; apply (bool_decide_unpack _); vm_compute; exact I.
Defined.

(** C3, as first stated, at a predicted table with two fields named [a] and
    an empty target table: the handler keeps one field [a] (the later
    one), not the two predicted fields in their original order. *)
Lemma append_new_columns_duplicate_names :
  table (append_new_columns_handler
           (mkDryRunResult Sample.fct_orders
              (Some (mkTable [Sample.a; Sample.a_again])) SUCCESS None)
           (mkTable []))
    = Some (mkTable [Sample.a_again])
  ∧ append_new_columns_spec [Sample.a; Sample.a_again] []
    = [Sample.a; Sample.a_again]
  ∧ table (append_new_columns_handler
             (mkDryRunResult Sample.fct_orders
                (Some (mkTable [Sample.a; Sample.a_again])) SUCCESS None)
             (mkTable []))
    ≠ Some (mkTable (append_new_columns_spec [Sample.a; Sample.a_again] [])).
Proof. split; [|split]; [reflexivity|reflexivity|vm_compute; discriminate]. Qed.

Lemma run_reconciles_witness :
  @exec nat Sample.runner DryRunResult
    (@run Sample.substitution Sample.store_ok Sample.fct_orders) 0 =
    (Returned
       (ignore_handler
          (mkDryRunResult Sample.fct_orders
             (Some (mkTable [Sample.a; Sample.b])) SUCCESS None)
          (mkTable [Sample.b_live; Sample.c])),
     [QueryCall "select * from `warehouse`.`staging`.`stg_orders` /* model.shop.stg_orders */";
      GetNodeSchemaCall Sample.fct_orders], 2).
Proof.
  destruct (@run_reconciles Sample.substitution nat Sample.runner
              Sample.store_ok Sample.fct_orders _ 0 1 2 SUCCESS
              (Some (mkTable [Sample.a; Sample.b])) None
              (Some (mkTable [Sample.b_live; Sample.c])) eq_refl)
    as [run_sql [Hins Hrun]].
  { vm_compute. apply Forall_cons. split; [reflexivity|apply Forall_nil_2]. }
  destruct (Hrun eq_refl eq_refl) as [Happlied _].
  destruct (Happlied _ eq_refl eq_refl eq_refl) as [Hexec Hignore].
  rewrite Hexec, (Hignore eq_refl).
  vm_compute in Hins. injection Hins as <-. reflexivity.
Defined.

Lemma run_query_sql_witness :
  queries (@exec nat Sample.runner DryRunResult
             (@run Sample.substitution Sample.store_ok Sample.stg_orders)
             0).1.2
  = [create_view_sql Sample.stg_orders
       "select order_id, amount from raw.orders"].
Proof.
  destruct (@run_query_sql Sample.substitution Sample.store_ok
              Sample.stg_orders _ eq_refl)
    as (run_sql & sent & Hins & Hsent & Hview & _).
  { vm_compute. apply Forall_nil_2. }
  rewrite (Hsent nat Sample.runner 0), (Hview eq_refl).
  vm_compute in Hins. injection Hins as <-. reflexivity.
Defined.


(** * Further properties of the handlers and of the runner *)

(** ** Dictionaries keyed by the name of their values *)

Section pydict_ext.
Context {V : Type}.
Implicit Types (d o : PyDict.t V) (k : string) (v : V).

Lemma setitem_Forall (Q : string * V → Prop) k v d :
  Q (k, v) → Forall Q d → Forall Q (PyDict.setitem k v d).
Proof.
  intros Hkv. induction 1 as [|[k0 v0] d Hq Hd IH]; csimpl.
  - by repeat constructor.
  - destruct (decide (k = k0)) as [->|Hne]; by constructor.
Qed.

Lemma update_Forall (Q : string * V → Prop) d o :
  Forall Q d → Forall Q o → Forall Q (PyDict.update d o).
Proof.
  unfold PyDict.update. intros Hd Ho. revert d Hd.
  induction Ho as [|[k v] o Hkv Ho IH]; intros d Hd; csimpl; [done|].
  by apply IH, setitem_Forall.
Qed.

(** Two dictionaries with the same keys, in the same order, and the same
    value at each key are the same. *)
Lemma dict_ext d o :
  NoDup (PyDict.keys d) → PyDict.keys d = PyDict.keys o →
  (∀ k, PyDict.get k d = PyDict.get k o) → d = o.
Proof.
  unfold PyDict.keys. revert o.
  induction d as [|[k v] d IH]; intros [|[k' v'] o]; csimpl; try done.
  intros [Hnin Hnd]%NoDup_cons Hkeys Hget.
  injection Hkeys as <- Hkeys.
  pose proof (Hget k) as Hk. unfold PyDict.get in Hk. csimpl in Hk.
  rewrite !bool_decide_eq_true_2 in Hk by done. injection Hk as <-.
  f_equal. apply IH; [done..|]. intros k0.
  destruct (decide (k = k0)) as [<-|Hne].
  - rewrite (proj2 (get_None k d)) by done.
    symmetry. apply get_None. unfold PyDict.keys. by rewrite <- Hkeys.
  - specialize (Hget k0). unfold PyDict.get in Hget. csimpl in Hget.
    by rewrite !bool_decide_eq_false_2 in Hget by done.
Qed.

Lemma update_empty d :
  NoDup (PyDict.keys d) → PyDict.update PyDict.empty d = d.
Proof.
  intros Hnd. apply dict_ext.
  - by apply update_NoDup, NoDup_nil.
  - rewrite update_keys. csimpl.
    rewrite filter_all by (intros x _; apply not_elem_of_nil).
    by apply first_occurrences_id.
  - intros k. rewrite update_get, get_reverse by done.
    by destruct (PyDict.get k d).
Qed.

Lemma update_update d o :
  NoDup (PyDict.keys d) →
  PyDict.update (PyDict.update d o) o = PyDict.update d o.
Proof.
  intros Hnd. apply dict_ext.
  - by do 2 apply update_NoDup.
  - rewrite (update_keys (PyDict.update d o) o).
    rewrite (proj2 (filter_nil_iff _ _)); [by rewrite app_nil_r|].
    intros x Hx Hnin. apply Hnin. rewrite update_keys.
    destruct (decide (x ∈ PyDict.keys d)) as [Hin|Hout].
    + apply elem_of_app. by left.
    + apply elem_of_app. right. by apply list_elem_of_filter.
  - intros k. rewrite !update_get. by destruct (PyDict.get k (reverse o)).
Qed.
End pydict_ext.

Section pydict_keyed.
Context {V : Type} (key : V → string).
Implicit Types (d o : PyDict.t V) (k : string) (v : V).

Lemma comprehension_keyed (xs : list V) :
  Forall (λ kv, key kv.2 = kv.1) (PyDict.comprehension key xs).
Proof.
  rewrite comprehension_update. apply update_Forall; [constructor|].
  apply Forall_fmap, Forall_forall. by intros x _.
Qed.

Lemma keyed_values_keys d :
  Forall (λ kv, key kv.2 = kv.1) d → key <$> PyDict.values d = PyDict.keys d.
Proof.
  unfold PyDict.values, PyDict.keys.
  induction 1 as [|[k v] d Hkv Hd IH]; csimpl; [done|]. by f_equal.
Qed.

Lemma keyed_values_pairs d :
  Forall (λ kv, key kv.2 = kv.1) d → (λ x, (key x, x)) <$> PyDict.values d = d.
Proof.
  unfold PyDict.values.
  induction 1 as [|[k v] d Hkv Hd IH]; csimpl; [done|].
  simpl in Hkv. by rewrite Hkv, IH.
Qed.

(** Building a dictionary from the values of a dictionary that is keyed by
    [key] gives that dictionary back. *)
Lemma comprehension_values d :
  Forall (λ kv, key kv.2 = kv.1) d → NoDup (PyDict.keys d) →
  PyDict.comprehension key (PyDict.values d) = d.
Proof.
  intros Hkeyed Hnd.
  by rewrite comprehension_update, keyed_values_pairs, update_empty.
Qed.
End pydict_keyed.

(** ** AppendNewColumns: names, provenance, idempotence *)

Lemma merged_dict_keyed (predicted target : list TableField) :
  Forall (λ kv, name kv.2 = kv.1)
    (PyDict.update (PyDict.comprehension name predicted)
                   (PyDict.comprehension name target)).
Proof. apply update_Forall; apply comprehension_keyed. Qed.

Lemma merge_by_name_names (predicted target : list TableField) :
  name <$> merge_by_name predicted target =
    first_occurrences (name <$> predicted)
    ++ filter (λ nm, nm ∉ name <$> predicted)
         (first_occurrences (name <$> target)).
Proof.
  rewrite <- append_new_columns_values.
  rewrite (keyed_values_keys name) by apply merged_dict_keyed.
  rewrite update_keys, !comprehension_keys.
  rewrite (first_occurrences_id (first_occurrences _))
    by apply first_occurrences_NoDup.
  f_equal. apply list_filter_iff. intros x. by rewrite first_occurrences_elem.
Qed.

Lemma append_new_columns_table (r : DryRunResult) (target predicted : Table) :
  table r = Some predicted →
  append_new_columns_handler r target =
    mkDryRunResult (node r)
      (Some (mkTable (merge_by_name (fields predicted) (fields target))))
      (status r) (exception r).
Proof.
  intros Hp. unfold append_new_columns_handler. rewrite Hp. cbv zeta.
  by rewrite append_new_columns_values.
Qed.

Lemma find_has_name_Some (nm : string) (fs : list TableField) (f : TableField) :
  find (has_name nm) fs = Some f → f ∈ fs ∧ name f = nm.
Proof.
  intros Hf. apply find_some in Hf as [Hin Hnm].
  split; [by apply list_elem_of_In|].
  unfold has_name in Hnm. by apply bool_decide_eq_true in Hnm.
Qed.

Lemma find_has_name_None (nm : string) (fs : list TableField) :
  find (has_name nm) fs = None → nm ∉ name <$> fs.
Proof.
  intros Hf Hin. apply list_elem_of_fmap in Hin as [f [-> Hin]].
  apply list_elem_of_In in Hin.
  pose proof (find_none _ _ Hf f Hin) as Hnm.
  unfold has_name in Hnm. by apply bool_decide_eq_false in Hnm.
Qed.

Lemma last_named_Some (nm : string) (fs : list TableField) (f : TableField) :
  last_named nm fs = Some f → f ∈ fs ∧ name f = nm.
Proof.
  intros [Hin Hnm]%find_has_name_Some. by rewrite elem_of_reverse in Hin.
Qed.

Lemma last_named_None (nm : string) (fs : list TableField) :
  last_named nm fs = None → nm ∉ name <$> fs.
Proof.
  intros Hn%find_has_name_None. by rewrite fmap_reverse, elem_of_reverse in Hn.
Qed.

(** X1: with a predicted table, the names of the table that the
    AppendNewColumns handler returns are the names of the predicted table,
    each at its first occurrence, followed by the names that only the
    target has, each at its first occurrence there.  No name occurs twice
    in the result, and a name is in the result exactly when it is in one of
    the two tables. *)
Theorem append_new_columns_names (r : DryRunResult) (target predicted : Table) :
  table r = Some predicted →
  ∃ out,
    table (append_new_columns_handler r target) = Some out
    ∧ name <$> fields out =
        first_occurrences (name <$> fields predicted)
        ++ filter (λ nm, nm ∉ name <$> fields predicted)
             (first_occurrences (name <$> fields target))
    ∧ NoDup (name <$> fields out)
    ∧ ∀ nm, nm ∈ name <$> fields out ↔
            nm ∈ name <$> fields predicted ∨ nm ∈ name <$> fields target.
Proof.
  intros Hp. eexists. rewrite (append_new_columns_table r target predicted Hp).
  split; [reflexivity|]. simpl. rewrite merge_by_name_names.
  split; [done|]. split.
  - apply NoDup_app. split; [apply first_occurrences_NoDup|]. split.
    + intros x Hx [Hnin _]%list_elem_of_filter.
      apply Hnin. by apply first_occurrences_elem.
    + apply NoDup_filter, first_occurrences_NoDup.
  - intros nm. rewrite elem_of_app, list_elem_of_filter.
    rewrite !first_occurrences_elem.
    destruct (decide (nm ∈ name <$> fields predicted)); naive_solver.
Qed.

(** X2: every field of the table that the AppendNewColumns handler returns
    is a field of the target table, or a field of the predicted table
    whose name the target table does not have; and when no two fields of
    the target table share a name, every field of the target table is in
    the result. *)
Theorem append_new_columns_provenance (r : DryRunResult)
    (target predicted : Table) :
  table r = Some predicted →
  ∃ out,
    table (append_new_columns_handler r target) = Some out
    ∧ (∀ f, f ∈ fields out →
            f ∈ fields target
            ∨ (f ∈ fields predicted ∧ name f ∉ name <$> fields target))
    ∧ (NoDup (name <$> fields target) →
       ∀ g, g ∈ fields target → g ∈ fields out).
Proof.
  intros Hp. eexists. rewrite (append_new_columns_table r target predicted Hp).
  split; [reflexivity|]. simpl. split.
  - intros f Hf. unfold merge_by_name in Hf.
    apply list_elem_of_omap in Hf as [nm [_ Hnm]].
    destruct (last_named nm (fields target)) as [g|] eqn:Hg.
    + injection Hnm as <-. left. by apply last_named_Some in Hg as [? _].
    + apply last_named_Some in Hnm as [Hin <-]. right. split; [done|].
      by apply last_named_None.
  - intros Hnd g Hg. unfold merge_by_name.
    apply list_elem_of_omap. exists (name g). split.
    + destruct (decide (name g ∈ name <$> fields predicted)) as [Hin|Hout].
      * apply elem_of_app. left. by apply first_occurrences_elem.
      * apply elem_of_app. right. apply list_elem_of_filter. split; [done|].
        apply first_occurrences_elem. by apply list_elem_of_fmap_2.
    + rewrite last_named_first_named by done.
      by rewrite first_named_self.
Qed.

(** X3: applying the AppendNewColumns handler a second time with the same
    target table changes nothing. *)
Theorem append_new_columns_idempotent (r : DryRunResult) (target : Table) :
  append_new_columns_handler (append_new_columns_handler r target) target
  = append_new_columns_handler r target.
Proof.
  destruct (table r) as [predicted|] eqn:Hp.
  - rewrite (append_new_columns_table r target predicted Hp).
    rewrite (append_new_columns_table
               (mkDryRunResult (node r)
                  (Some (mkTable (merge_by_name (fields predicted)
                                    (fields target))))
                  (status r) (exception r))
               target
               (mkTable (merge_by_name (fields predicted) (fields target)))
               eq_refl).
    simpl. do 3 f_equal. rewrite <- !append_new_columns_values.
    rewrite (comprehension_values name)
      by (apply merged_dict_keyed || apply update_NoDup, comprehension_NoDup).
    rewrite update_update; [done|]. apply comprehension_NoDup.
  - assert (append_new_columns_handler r target = r) as Hid.
    { unfold append_new_columns_handler. by rewrite Hp. }
    by rewrite !Hid.
Qed.

(** ** Fail: idempotence, symmetry, what it looks at *)

Lemma names_same_or_changed (P T : gset string) :
  P = T ∨ (P ∖ T ≠ ∅ ∨ T ∖ P ≠ ∅).
Proof.
  destruct (decide (P ∖ T = ∅)) as [E1|N1]; [|by right; left].
  destruct (decide (T ∖ P = ∅)) as [E2|N2]; [|by right; right].
  left. apply set_eq. intros x. split; intros Hx.
  - destruct (decide (x ∈ T)) as [|Hn]; [done|].
    exfalso. apply (not_elem_of_empty (C:=gset string) x).
    rewrite <- E1. by apply elem_of_difference.
  - destruct (decide (x ∈ P)) as [|Hn]; [done|].
    exfalso. apply (not_elem_of_empty (C:=gset string) x).
    rewrite <- E2. by apply elem_of_difference.
Qed.

Lemma fail_handler_absent (r : DryRunResult) (target : Table) :
  table r = None → fail_handler r target = r.
Proof. intros Hn. unfold fail_handler. by rewrite Hn. Qed.

(** X4: applying the Fail handler a second time with the same target table
    changes nothing. *)
Theorem fail_handler_idempotent (r : DryRunResult) (target : Table) :
  fail_handler (fail_handler r target) target = fail_handler r target.
Proof.
  destruct (table r) as [predicted|] eqn:Hp.
  - destruct (names_same_or_changed
                (list_to_set (name <$> fields predicted))
                (list_to_set (name <$> fields target))) as [Hsame|Hdiff].
    + rewrite (fail_handler_same r predicted target Hp Hsame).
      by rewrite (fail_handler_same
                    (mkDryRunResult (node r) (Some target) (status r)
                       (exception r))
                    target target eq_refl eq_refl).
    + rewrite (fail_handler_changed r predicted target Hp Hdiff).
      by apply fail_handler_absent.
  - by rewrite !(fail_handler_absent r target Hp).
Qed.

(** X5: the Fail handler treats the two tables symmetrically.  It rejects
    the predicted table [P] against the target [T] with added names [A] and
    removed names [R] exactly when it rejects [T] as the predicted table
    against [P] as the target with added names [R] and removed names [A]. *)
Theorem fail_handler_symmetric (r1 r2 : DryRunResult) (P T : Table)
    (A R : gset string) :
  table r1 = Some P → table r2 = Some T →
  fail_handler r1 T =
    mkDryRunResult (node r1) None FAILURE
      (Some (SchemaChangeException (schema_change_msg A R)))
  ↔ fail_handler r2 P =
      mkDryRunResult (node r2) None FAILURE
        (Some (SchemaChangeException (schema_change_msg R A))).
Proof.
  intros H1 H2.
  destruct (names_same_or_changed
              (list_to_set (name <$> fields P))
              (list_to_set (name <$> fields T))) as [Hsame|Hdiff].
  - rewrite (fail_handler_same r1 P T H1 Hsame).
    rewrite (fail_handler_same r2 T P H2 (eq_sym Hsame)).
    split; intros Heq; discriminate Heq.
  - rewrite (fail_handler_changed r1 P T H1 Hdiff).
    rewrite (fail_handler_changed r2 T P H2) by tauto.
    unfold schema_change_msg.
    split; intros Heq; injection Heq as -> ->; reflexivity.
Qed.

(** X6: the Fail handler looks at the predicted table only through the set
    of its field names: a predicted table with the same names, whatever the
    types, the order or the repetitions of its fields, gives the same
    result. *)
Theorem fail_handler_names_only (r : DryRunResult) (P P' target : Table) :
  table r = Some P →
  (∀ x, x ∈ name <$> fields P ↔ x ∈ name <$> fields P') →
  fail_handler (mkDryRunResult (node r) (Some P') (status r) (exception r))
    target
  = fail_handler r target.
Proof.
  intros Hp Hnames.
  assert (list_to_set (name <$> fields P)
          =@{gset string} list_to_set (name <$> fields P')) as E.
  { apply set_eq. intros x. rewrite !elem_of_list_to_set. apply Hnames. }
  unfold fail_handler. rewrite Hp. simpl. by rewrite E.
Qed.

(** X7: a handler either keeps both the status and the error of the result
    it is given, or it is the Fail handler given a predicted table, and
    then the result has no table, status FAILURE and a
    SchemaChangeException. *)
Theorem handler_status_exception (policy : OnSchemaChange) (r : DryRunResult)
    (target : Table) :
  (status (ON_SCHEMA_CHANGE_TABLE_HANDLER policy r target) = status r
   ∧ exception (ON_SCHEMA_CHANGE_TABLE_HANDLER policy r target) = exception r)
  ∨ (policy = FAIL ∧ is_Some (table r)
     ∧ table (ON_SCHEMA_CHANGE_TABLE_HANDLER policy r target) = None
     ∧ status (ON_SCHEMA_CHANGE_TABLE_HANDLER policy r target) = FAILURE
     ∧ ∃ A R, exception (ON_SCHEMA_CHANGE_TABLE_HANDLER policy r target)
              = Some (SchemaChangeException (schema_change_msg A R))).
Proof.
  destruct policy; simpl.
  - by left.
  - left. unfold append_new_columns_handler. by destruct (table r).
  - by left.
  - unfold fail_handler. destruct (table r) as [predicted|]; [|by left].
    cbv zeta. destruct (set_truthy _); [|by left].
    right. simpl. eauto 10.
Qed.

(** ** The runner: what a result says, what is asked, what is read *)

Lemma no_failed_Forall (rs : list DryRunResult) :
  filter (λ r, status r ≠ SUCCESS) rs = [] →
  Forall (λ r, status r = SUCCESS) rs.
Proof.
  intros Hnil. apply Forall_forall. intros r Hr.
  destruct (decide (status r = SUCCESS)) as [|Hf]; [done|].
  by destruct (proj1 (filter_nil_iff _ _) Hnil r Hr).
Qed.

Lemma some_failed_Exists (rs : list DryRunResult) :
  filter (λ r, status r ≠ SUCCESS) rs ≠ [] →
  Exists (λ r, status r ≠ SUCCESS) rs.
Proof.
  intros Hne. destruct (filter _ rs) as [|r l] eqn:E; [done|].
  assert (r ∈ filter (λ r, status r ≠ SUCCESS) rs) as Hin
    by (rewrite E; by left).
  apply list_elem_of_filter in Hin as [Hf Hin].
  apply Exists_exists. eauto.
Qed.

Section model_runner_extras.
Context `{!LiteralSubstitution}.

(** The three ways [run] can go. *)
Lemma run_cases (results : ResultStore) (n : Node) :
  (deep_nodes (depends_on n) = None
   ∧ ∃ msg, run results n = Throw (KeyError msg))
  ∨ (∃ deep msg,
       deep_nodes (depends_on n) = Some deep
       ∧ Exists (λ r, status r ≠ SUCCESS) (omap (results !!.) deep)
       ∧ run results n =
           Ret (mkDryRunResult n None FAILURE
                  (Some (UpstreamFailedException msg))))
  ∨ (∃ deep run_sql,
       deep_nodes (depends_on n) = Some deep
       ∧ Forall (λ r, status r = SUCCESS) (omap (results !!.) deep)
       ∧ _insert_dependant_sql_literals results n = Returned run_sql).
Proof.
  destruct (deep_nodes (depends_on n)) as [deep|] eqn:Hd.
  - right.
    destruct (decide (filter (λ r, status r ≠ SUCCESS)
                        (omap (results !!.) deep) = [])) as [Hnil|Hne].
    + right. exists deep. eexists. split; [done|].
      split; [by apply no_failed_Forall|].
      by apply insert_literals_ok.
    + left. exists deep. eexists. split; [done|].
      split; [by apply some_failed_Exists|].
      unfold run. by rewrite (insert_literals_failed results n deep Hd Hne).
  - left. split; [done|]. eexists.
    unfold run. by rewrite (insert_literals_missing results n Hd).
Qed.

(** X8: a result of [run] with status SUCCESS means that [deep_nodes] was
    set, that no resolved upstream had failed, and that the SQL runner
    answered SUCCESS to the query for this node. *)
Theorem run_success_sound {St : Type} `{!SqlRunner St} (results : ResultStore)
    (n : Node) (s : St) (r : DryRunResult) :
  (exec (run results n) s).1.1 = Returned r →
  status r = SUCCESS →
  ∃ deep run_sql,
    deep_nodes (depends_on n) = Some deep
    ∧ Forall (λ u, status u = SUCCESS) (omap (results !!.) deep)
    ∧ _insert_dependant_sql_literals results n = Returned run_sql
    ∧ (query (sent_sql n run_sql) s).1.1.1 = SUCCESS.
Proof.
  intros Hexec Hok.
  destruct (run_cases results n)
    as [[_ [msg Hrun]]|[(deep & msg & _ & _ & Hrun)
                       |(deep & run_sql & Hd & Hall & Hins)]].
  - rewrite Hrun in Hexec. discriminate Hexec.
  - rewrite Hrun in Hexec. simpl in Hexec. injection Hexec as <-.
    discriminate Hok.
  - exists deep, run_sql. repeat split; try done.
    rewrite (exec_run_ok results n run_sql s Hins) in Hexec.
    destruct (query (sent_sql n run_sql) s) as [[[st tbl] exc] s1]. simpl.
    destruct (bool_decide (st = SUCCESS)) eqn:Est.
    + by apply bool_decide_eq_true in Est.
    + simpl in Hexec. injection Hexec as <-. done.
Qed.

(** X9: [run] makes no call to the SQL runner, or one query, or one query
    followed by one request for the schema of the node itself; the schema
    is asked for only when the node is materialized as "incremental" and
    the query was answered with SUCCESS. *)
Theorem run_calls {St : Type} `{!SqlRunner St} (results : ResultStore)
    (n : Node) (s : St) :
  let calls := (exec (run results n) s).1.2 in
  calls = []
  ∨ (∃ sql, calls = [QueryCall sql])
  ∨ (∃ sql, calls = [QueryCall sql; GetNodeSchemaCall n]
            ∧ materialized (config n) = "incremental"
            ∧ (query sql s).1.1.1 = SUCCESS).
Proof.
  intros calls. unfold calls.
  destruct (run_cases results n)
    as [[Hd [msg Hrun]]|[(deep & msg & Hd & Hex & Hrun)
                        |(deep & run_sql & Hd & Hall & Hins)]].
  - left. by rewrite Hrun.
  - left. by rewrite Hrun.
  - right. rewrite (exec_run_ok results n run_sql s Hins).
    destruct (query (sent_sql n run_sql) s) as [[[st tbl] exc] s1] eqn:Hq.
    destruct (bool_decide (st = SUCCESS)
              && bool_decide (materialized (config n) = "incremental"))
      eqn:E.
    + right. apply andb_true_iff in E as [E1 E2].
      apply bool_decide_eq_true in E1, E2.
      destruct (get_node_schema n s1) as [target s2]. simpl.
      exists (sent_sql n run_sql). by rewrite Hq.
    + left. by eexists.
Qed.

(** X10: [run] reads the store only at the identifiers of the node's
    [deep_nodes]: two stores that agree there give the same run. *)
Theorem run_store_frame (results results' : ResultStore) (n : Node) :
  (∀ deep k, deep_nodes (depends_on n) = Some deep → k ∈ deep →
             results !! k = results' !! k) →
  run results n = run results' n.
Proof.
  intros Hagree.
  assert (_insert_dependant_sql_literals results n
          = _insert_dependant_sql_literals results' n) as E.
  { unfold _insert_dependant_sql_literals.
    destruct (deep_nodes (depends_on n)) as [deep|] eqn:Hd; [|done].
    rewrite !resolve_results_omap.
    by rewrite (omap_ext_elem (results !!.) (results' !!.) deep)
      by (intros k Hk; by apply (Hagree deep)). }
  unfold run. by rewrite E.
Qed.

(** X11: when every identifier of [deep_nodes] is either not in the store
    or stored with status SUCCESS and no table (in particular when
    [deep_nodes] or the store is empty), the substitution step returns the
    node's compiled SQL as it is. *)
Theorem insert_literals_unchanged (results : ResultStore) (n : Node)
    (deep : list string) :
  deep_nodes (depends_on n) = Some deep →
  Forall (λ k, match results !! k with
               | Some r => status r = SUCCESS ∧ table r = None
               | None => True
               end) deep →
  _insert_dependant_sql_literals results n = Returned (compiled_sql n).
Proof.
  intros Hd Hall.
  assert (Forall (λ r, status r = SUCCESS ∧ table r = None)
            (omap (results !!.) deep)) as Hres.
  { clear Hd. induction Hall as [|k deep Hk Hall IH]; csimpl; [constructor|].
    destruct (results !! k) as [r|]; [by constructor|done]. }
  rewrite (insert_literals_ok results n deep Hd).
  - rewrite (proj2 (filter_nil_iff _ _)); [done|].
    intros r Hr. apply (proj1 (Forall_forall _ _) Hres) in Hr as [_ Ht].
    by rewrite Ht.
  - apply filter_nil_iff. intros r Hr Hf.
    by apply (proj1 (Forall_forall _ _) Hres) in Hr as [Hs _].
Qed.
End model_runner_extras.

(** ** The runner across nodes, and under the Fail policy *)

Section model_runner_composition.
Context `{!LiteralSubstitution}.

Lemma exec_run_returned_node {St : Type} `{!SqlRunner St}
    (results : ResultStore) (n : Node) (s : St) (r : DryRunResult) :
  (exec (run results n) s).1.1 = Returned r → node r = n.
Proof.
  intros Hexec.
  destruct (run_cases results n)
    as [[_ [msg Hrun]]|[(deep & msg & _ & _ & Hrun)
                       |(deep & run_sql & _ & _ & Hins)]].
  - rewrite Hrun in Hexec. discriminate Hexec.
  - rewrite Hrun in Hexec. simpl in Hexec. by injection Hexec as <-.
  - rewrite (exec_run_ok results n run_sql s Hins) in Hexec.
    destruct (query (sent_sql n run_sql) s) as [[[st tbl] exc] s1].
    destruct (bool_decide (st = SUCCESS) && _).
    + destruct (get_node_schema n s1) as [[t|] s2]; simpl in Hexec;
        injection Hexec as <-; [apply handler_node|done].
    + simpl in Hexec. by injection Hexec as <-.
Qed.

(** X12: failure travels down the graph.  When [run] returns for a node
    [n] a result that is not a success and that result is stored under the
    identifier of [n], [run] on any node [m] that lists [n] among its
    [deep_nodes] returns, without calling the SQL runner, a FAILURE result
    with an UpstreamFailedException whose message is "Can't insert SELECT
    literals for <id of m> because <ids> failed", the identifier of [n]
    being in the list <ids>. *)
Theorem run_failure_propagates {St : Type} `{!SqlRunner St}
    (results : ResultStore) (n m : Node) (deep_m : list string) (s : St)
    (r : DryRunResult) :
  (exec (run results n) s).1.1 = Returned r →
  status r ≠ SUCCESS →
  deep_nodes (depends_on m) = Some deep_m →
  unique_id n ∈ deep_m →
  ∃ ids,
    run (<[unique_id n := r]> results) m =
      Ret (mkDryRunResult m None FAILURE
             (Some (UpstreamFailedException
                      [ Lit "Can't insert SELECT literals for ";
                        FmtStr (unique_id m); Lit " because ";
                        FmtList ids; Lit " failed" ])))
    ∧ unique_id n ∈ ids.
Proof.
  intros Hexec Hf Hd Hin.
  pose proof (exec_run_returned_node results n s r Hexec) as Hnode.
  set (store := <[unique_id n := r]> results).
  assert (r ∈ filter (λ u, status u ≠ SUCCESS) (omap (store !!.) deep_m))
    as Hr.
  { apply list_elem_of_filter. split; [done|].
    apply list_elem_of_omap. exists (unique_id n). split; [done|].
    unfold store. apply lookup_insert_eq. }
  eexists. split.
  - unfold run. rewrite (insert_literals_failed store m deep_m Hd); [done|].
    intros Hnil. rewrite Hnil in Hr. by apply elem_of_nil in Hr.
  - rewrite <- Hnode at 1.
    by apply (list_elem_of_fmap_2 (λ f, unique_id (node f))).
Qed.

(** X13: an incremental node under the Fail policy.  When the query is
    answered with SUCCESS and a predicted table and the node has a live
    schema, the result of [run] is a success exactly when the two tables
    have the same field names; it then carries the live schema and the
    error of the query, and otherwise it carries no table. *)
Theorem run_fail_policy {St : Type} `{!SqlRunner St} (results : ResultStore)
    (n : Node) (deep : list string) (s s1 s2 : St) (exc : option Exception)
    (P T : Table) :
  deep_nodes (depends_on n) = Some deep →
  Forall (λ r, status r = SUCCESS) (omap (results !!.) deep) →
  materialized (config n) = "incremental" →
  on_schema_change (config n) = Some FAIL →
  ∃ run_sql,
    _insert_dependant_sql_literals results n = Returned run_sql
    ∧ (query (sent_sql n run_sql) s = (SUCCESS, Some P, exc, s1) →
       get_node_schema n s1 = (Some T, s2) →
       ∃ r,
         (exec (run results n) s).1.1 = Returned r
         ∧ (status r = SUCCESS ↔
            ∀ x, x ∈ name <$> fields P ↔ x ∈ name <$> fields T)
         ∧ (status r = SUCCESS → table r = Some T ∧ exception r = exc)
         ∧ (status r ≠ SUCCESS → table r = None)).
Proof.
  intros Hd Hall Hm Hpol. eexists.
  split; [by apply insert_literals_returns|]. intros Hq Hg.
  rewrite (exec_run_ok results n _ s (insert_literals_returns _ _ _ Hd Hall)).
  rewrite Hq. cbv zeta. rewrite !bool_decide_eq_true_2 by done. simpl.
  rewrite Hg, Hpol. simpl. eexists. split; [reflexivity|].
  set (base := mkDryRunResult n (Some P) SUCCESS exc).
  assert ((∀ x, x ∈ name <$> fields P ↔ x ∈ name <$> fields T)
          ↔ list_to_set (name <$> fields P)
            =@{gset string} list_to_set (name <$> fields T)) as Hsets.
  { rewrite set_eq. by setoid_rewrite elem_of_list_to_set. }
  destruct (names_same_or_changed
              (list_to_set (name <$> fields P))
              (list_to_set (name <$> fields T))) as [Hsame|Hdiff].
  - rewrite (fail_handler_same base P T eq_refl Hsame). simpl.
    rewrite Hsets. by repeat split.
  - rewrite (fail_handler_changed base P T eq_refl Hdiff). simpl.
    rewrite Hsets.
    assert (list_to_set (name <$> fields P)
            ≠@{gset string} list_to_set (name <$> fields T)) as Hnot.
    { intros Hsame. rewrite Hsame in Hdiff.
      destruct Hdiff as [Hne|Hne]; apply Hne; apply set_eq; intros x;
        rewrite elem_of_difference, elem_of_empty; tauto. }
    split; [split; [discriminate|done]|]. split; [discriminate|done].
Qed.
End model_runner_composition.

(** ** The further properties at the sample values *)

Lemma append_new_columns_names_witness :
  ∃ out,
    table (append_new_columns_handler Sample.predicted_ab
             (mkTable [Sample.b_live; Sample.c])) = Some out
    ∧ name <$> fields out = ["a"; "b"; "c"].
Proof.
  destruct (append_new_columns_names Sample.predicted_ab
              (mkTable [Sample.b_live; Sample.c])
              (mkTable [Sample.a; Sample.b]) eq_refl)
    as (out & Htable & Hnames & _).
  exists out. split; [exact Htable|]. rewrite Hnames. reflexivity.
Defined.

Lemma append_new_columns_provenance_witness :
  ∃ out,
    table (append_new_columns_handler Sample.predicted_ab
             (mkTable [Sample.b_live; Sample.c])) = Some out
    ∧ Sample.b_live ∈ fields out ∧ Sample.c ∈ fields out.
Proof.
  destruct (append_new_columns_provenance Sample.predicted_ab
              (mkTable [Sample.b_live; Sample.c])
              (mkTable [Sample.a; Sample.b]) eq_refl)
    as (out & Htable & _ & Hkept).
  assert (NoDup (name <$> fields (mkTable [Sample.b_live; Sample.c]))) as Hnd
    by (apply (bool_decide_unpack _); vm_compute; exact I).
  exists out. split; [exact Htable|].
  split; apply (Hkept Hnd); simpl; rewrite !elem_of_cons; tauto.
Defined.

Lemma fail_handler_symmetric_witness :
  fail_handler Sample.predicted_ab (mkTable [Sample.a; Sample.c]) =
    mkDryRunResult Sample.fct_orders None FAILURE
      (Some (SchemaChangeException (schema_change_msg {["b"]} {["c"]})))
  ↔ fail_handler
      (mkDryRunResult Sample.stg_orders (Some (mkTable [Sample.a; Sample.c]))
         SUCCESS None)
      (mkTable [Sample.a; Sample.b]) =
      mkDryRunResult Sample.stg_orders None FAILURE
        (Some (SchemaChangeException (schema_change_msg {["c"]} {["b"]}))).
Proof.
  exact (fail_handler_symmetric Sample.predicted_ab
           (mkDryRunResult Sample.stg_orders
              (Some (mkTable [Sample.a; Sample.c])) SUCCESS None)
           (mkTable [Sample.a; Sample.b]) (mkTable [Sample.a; Sample.c])
           {["b"]} {["c"]} eq_refl eq_refl).
Defined.

Lemma fail_handler_names_only_witness :
  fail_handler
    (mkDryRunResult Sample.fct_orders
       (Some (mkTable [Sample.b_live; Sample.a_again; Sample.a])) SUCCESS None)
    (mkTable [Sample.a; Sample.b])
  = fail_handler Sample.predicted_ab (mkTable [Sample.a; Sample.b]).
Proof.
  apply (fail_handler_names_only Sample.predicted_ab
           (mkTable [Sample.a; Sample.b])
           (mkTable [Sample.b_live; Sample.a_again; Sample.a])
           (mkTable [Sample.a; Sample.b]) eq_refl).
  intros x. change (x ∈ ["a"; "b"] ↔ x ∈ ["b"; "a"; "a"]).
  rewrite !elem_of_cons. tauto.
Defined.

Lemma run_success_sound_witness :
  ∃ deep run_sql,
    deep_nodes (depends_on Sample.stg_orders) = Some deep
    ∧ Forall (λ u, status u = SUCCESS) (omap (Sample.store_ok !!.) deep)
    ∧ @_insert_dependant_sql_literals Sample.substitution Sample.store_ok
        Sample.stg_orders = Returned run_sql
    ∧ (@query nat Sample.runner (sent_sql Sample.stg_orders run_sql) 0).1.1.1
      = SUCCESS.
Proof.
  apply (@run_success_sound Sample.substitution nat Sample.runner
           Sample.store_ok Sample.stg_orders 0
           (mkDryRunResult Sample.stg_orders
              (Some (mkTable [Sample.a; Sample.b])) SUCCESS None));
    reflexivity.
Defined.

Lemma run_store_frame_witness :
  @run Sample.substitution Sample.store_ok Sample.fct_orders
  = @run Sample.substitution
      (<["model.shop.unrelated" := Sample.stg_failed]> Sample.store_ok)
      Sample.fct_orders.
Proof.
  apply (@run_store_frame Sample.substitution).
  intros deep k [= <-] Hk. symmetry. apply lookup_insert_ne. intros <-.
  rewrite !elem_of_cons, elem_of_nil in Hk.
  destruct Hk as [Hk|[Hk|[]]]; discriminate Hk.
Defined.

Lemma insert_literals_unchanged_witness :
  @_insert_dependant_sql_literals Sample.substitution ∅ Sample.fct_orders
  = Returned "select * from `warehouse`.`staging`.`stg_orders`".
Proof.
  apply (@insert_literals_unchanged Sample.substitution ∅ Sample.fct_orders
           ["model.shop.stg_orders"; "model.shop.not_run"] eq_refl).
  repeat constructor.
Defined.

Lemma run_failure_propagates_witness :
  ∃ ids,
    @run Sample.substitution
      (<["model.shop.fct_orders" :=
           mkDryRunResult Sample.fct_orders None FAILURE
             (Some (UpstreamFailedException
                      (upstream_failed_msg "model.shop.fct_orders"
                         ["model.shop.stg_orders"])))]> Sample.store_failed)
      (mkNode "model.shop.report" "warehouse" "marts" "report"
         "select * from `warehouse`.`marts`.`fct_orders`"
         (mkNodeConfig "table" None)
         (mkDependsOn (Some ["model.shop.fct_orders"])))
    = Ret (mkDryRunResult
             (mkNode "model.shop.report" "warehouse" "marts" "report"
                "select * from `warehouse`.`marts`.`fct_orders`"
                (mkNodeConfig "table" None)
                (mkDependsOn (Some ["model.shop.fct_orders"])))
             None FAILURE
             (Some (UpstreamFailedException
                      [ Lit "Can't insert SELECT literals for ";
                        FmtStr "model.shop.report"; Lit " because ";
                        FmtList ids; Lit " failed" ])))
    ∧ "model.shop.fct_orders" ∈ ids.
Proof.
  apply (@run_failure_propagates Sample.substitution nat Sample.runner
           Sample.store_failed Sample.fct_orders
           (mkNode "model.shop.report" "warehouse" "marts" "report"
              "select * from `warehouse`.`marts`.`fct_orders`"
              (mkNodeConfig "table" None)
              (mkDependsOn (Some ["model.shop.fct_orders"])))
           ["model.shop.fct_orders"] 0
           (mkDryRunResult Sample.fct_orders None FAILURE
              (Some (UpstreamFailedException
                       (upstream_failed_msg "model.shop.fct_orders"
                          ["model.shop.stg_orders"]))))).
  - reflexivity.
  - discriminate.
  - reflexivity.
  - simpl. rewrite elem_of_cons. by left.
Defined.

Lemma run_fail_policy_witness :
  ∃ r,
    (@exec nat Sample.runner DryRunResult
       (@run Sample.substitution Sample.store_ok
          (mkNode "model.shop.fct_strict" "warehouse" "marts" "fct_strict"
             "select * from `warehouse`.`staging`.`stg_orders`"
             (mkNodeConfig "incremental" (Some FAIL))
             (mkDependsOn (Some ["model.shop.stg_orders"])))) 0).1.1
    = Returned r
    ∧ (status r = SUCCESS ↔ ∀ x, x ∈ ["a"; "b"] ↔ x ∈ ["b"; "c"])
    ∧ (status r ≠ SUCCESS → table r = None).
Proof.
  destruct (@run_fail_policy Sample.substitution nat Sample.runner
              Sample.store_ok
              (mkNode "model.shop.fct_strict" "warehouse" "marts" "fct_strict"
                 "select * from `warehouse`.`staging`.`stg_orders`"
                 (mkNodeConfig "incremental" (Some FAIL))
                 (mkDependsOn (Some ["model.shop.stg_orders"])))
              ["model.shop.stg_orders"] 0 1 2 None
              (mkTable [Sample.a; Sample.b])
              (mkTable [Sample.b_live; Sample.c]) eq_refl)
    as [run_sql [_ Hrun]].
  - vm_compute. apply Forall_cons. split; [reflexivity|apply Forall_nil_2].
  - reflexivity.
  - reflexivity.
  - destruct (Hrun eq_refl eq_refl) as (r & Hexec & Hiff & _ & Hfail).
    exists r. split; [exact Hexec|]. split; [exact Hiff|exact Hfail].
Defined.
